(** * PyxDI: the provider registry, scope validation and scoped resolution

    A shallow embedding of [pyxdi/core.py]: the container [PyxDI], its
    provider registry ([register_provider], [unregister_provider],
    [get_provider], [has_provider]), the three registration-time validators,
    the scoped contexts with their instance caches and exit stacks, instance
    resolution ([get_instance], [aget_instance] and what they call), the
    request scope ([request_context], [arequest_context]) and the
    [override] block, the start of the singleton context and [inject].
    Modules, the [provider] decorator and the scanner are not part of it.

    Python objects that the container only passes around are modelled as
    data:
    - an interface key is an [Interface];
    - a provider callable is an [Obj]: what [inspect] reports about it (its
      kind and its signature) together with what a call of it produces,
      which may depend on everything that happened before;
    - an instance is a [Value]: [None] or an object, compared by identity.

    The container is a mutable object, so every operation is a computation
    in the monad [M]: it takes the container, returns the container as the
    operation left it, and either a result or the exception it raised.  An
    exception does not undo the mutations made before it.

    Three things are taken from Python and the standard library rather than
    from this file's source: the protocol of [contextlib.contextmanager]
    ([with_generator]), the exit stack of [contextlib.ExitStack] ([drain]),
    whose callbacks run last pushed first, and the context variable with its
    token.  A generator provider has no [try] statement around its [yield],
    as in the tests: an exception raised at the [yield] leaves it at once.
    Provider callables do not call the container themselves, and one task
    runs at a time. *)

From stdpp Require Import gmap strings list fin_maps.

Open Scope string_scope.
Open Scope list_scope.

(** ** Interfaces, scopes, instances *)

(** The keys of the registry.  [INone] is the object [None], [INoneType] its
    type, [IEmpty] is [inspect._empty] (the annotation of a parameter that
    has none), [IType] a named type and [IEvent] one of the [Event...] types
    that [register_provider] creates. *)
Inductive Interface :=
| INone
| INoneType
| IEmpty
| IType (name : string)
| IEvent (n : nat).

Global Instance Interface_eq_dec : EqDecision Interface.
Proof. solve_decision. Defined.

Definition Interface_code (i : Interface) : nat + (string + nat) :=
  match i with
  | INone => inl 0
  | INoneType => inl 1
  | IEmpty => inl 2
  | IType s => inr (inl s)
  | IEvent n => inr (inr n)
  end.

Definition Interface_decode (x : nat + (string + nat)) : Interface :=
  match x with
  | inl 0 => INone
  | inl 1 => INoneType
  | inl _ => IEmpty
  | inr (inl s) => IType s
  | inr (inr n) => IEvent n
  end.

Global Instance Interface_countable : Countable Interface.
Proof.
  apply (inj_countable' Interface_code Interface_decode).
  intros []; reflexivity.
Defined.

(** [Scope = t.Literal["transient", "singleton", "request"]]; at run time a
    scope is whatever string the caller passed. *)
Definition Scope_args : list string := ["transient"; "singleton"; "request"].

Definition ALLOWED_SCOPES : gmap string (list string) :=
  list_to_map
    [ ("singleton", ["singleton"]);
      ("request", ["request"; "singleton"]);
      ("transient", ["transient"; "singleton"; "request"]) ].

(** An instance: [None], or an object known by its identity. *)
Inductive Value :=
| VNone
| VObj (addr : nat).

Global Instance Value_eq_dec : EqDecision Value.
Proof. solve_decision. Defined.

(** A reference to a scoped context: the container's singleton context or a
    [RequestContext] object. *)
Inductive ContextRef :=
| Singleton
| Request (id : nat).

Global Instance ContextRef_eq_dec : EqDecision ContextRef.
Proof. solve_decision. Defined.

(** What the provider callables did, in order.  [EvCall] is logged when a
    provider callable is invoked, [EvSetup] when a generator provider has
    reached its [yield] and its exit was pushed on the exit stack of the
    context [ctx], [EvASetup] is the same for an async generator and the
    async exit stack, [EvTeardown] when the code after the [yield] is run,
    whether it runs to its end or raises. *)
Inductive Event :=
| EvCall (name : string)
| EvSetup (ctx : ContextRef) (name : string)
| EvASetup (ctx : ContextRef) (name : string)
| EvTeardown (name : string).

Global Instance Event_eq_dec : EqDecision Event.
Proof. solve_decision. Defined.

(** ** Providers *)

(** What [inspect] reports about a provider object. *)
Inductive ObjKind :=
| Function          (* a plain function or method *)
| Coroutine         (* [async def] without [yield] *)
| Generator         (* a generator function *)
| AsyncGenerator    (* an async generator function *)
| Class
| Other.            (* anything else, such as a string *)

(** [inspect.Parameter] (named [Param] here): name, annotation ([IEmpty] when absent) and
    whether its kind is [POSITIONAL_ONLY]. *)
Record Param := {
  name : string;
  annotation : Interface;
  positional_only : bool;
}.

(** What a call of a provider callable produces: an object that existed
    before (or [None]), a new object, or an exception.  For a generator it
    is what the generator yields. *)
Inductive Produced :=
| Returns (v : Value)
| New
| Raises.

(** A provider callable.  [body] may depend on everything that happened
    before the call and on the arguments.  For a generator,
    [teardown_raises] says whether the code after its [yield] raises when the
    generator is resumed; it may depend on everything that happened
    before. *)
Record Obj := {
  qualname : string;
  kind : ObjKind;
  signature : list Param;
  body : list Event -> list Value -> gmap string Value -> Produced;
  teardown_raises : list Event -> bool;
}.

Record Provider := {
  obj : Obj;
  scope : string;
}.

Definition parameters (provider : Provider) : list Param :=
  signature (obj provider).

Definition is_class (provider : Provider) : bool :=
  match kind (obj provider) with Class => true | _ => false end.

Definition is_coroutine (provider : Provider) : bool :=
  match kind (obj provider) with Coroutine => true | _ => false end.

Definition is_resource (provider : Provider) : bool :=
  match kind (obj provider) with Generator => true | _ => false end.

Definition is_async_resource (provider : Provider) : bool :=
  match kind (obj provider) with AsyncGenerator => true | _ => false end.

(** [(isfunction or ismethod) and not (is_resource or is_async_resource)] *)
Definition is_function (provider : Provider) : bool :=
  match kind (obj provider) with
  | Function | Coroutine | Generator | AsyncGenerator => true
  | _ => false
  end && negb (is_resource provider || is_async_resource provider).

(** ** The container *)

(** [_stack] and [_async_stack] are the exit stacks: the generators entered
    so far whose exit is pending, in push order (the last one pushed is the
    last element). *)
Record ScopedContext := {
  _scope : string;
  _instances : gmap Interface Value;
  _stack : list Obj;
  _async_stack : list Obj;
}.

Definition new_context (scope : string) : ScopedContext :=
  {| _scope := scope; _instances := ∅; _stack := []; _async_stack := [] |}.

(** The container and what it refers to.  [_request_context_var] holds a
    reference to a [RequestContext] or [None]; the [RequestContext] objects
    themselves live in [request_contexts], each under its identity. *)
Record PyxDI := {
  _providers : gmap Interface Provider;
  _singleton_context : ScopedContext;
  _request_context_var : option nat;
  _override_instances : gmap Interface Value;
  request_contexts : gmap nat ScopedContext;
  contexts_created : nat;
  event_types_created : nat;
  objects_created : nat;
  trace : list Event;
}.

(** [PyxDI()] without modules. *)
Definition new_PyxDI : PyxDI :=
  {| _providers := ∅;
     _singleton_context := new_context "singleton";
     _request_context_var := None;
     _override_instances := ∅;
     request_contexts := ∅;
     contexts_created := 0;
     event_types_created := 0;
     objects_created := 0;
     trace := [] |}.

(** ** Exceptions and the monad *)

Inductive Error :=
| ProviderAlreadyBound   (* LookupError, register_provider *)
| NotRegistered          (* LookupError, unregister_provider and override *)
| BindingDoesNotExist    (* LookupError, get_provider *)
| InvalidScope           (* ValueError, _validate_provider_scope *)
| TransientResource      (* TypeError, _validate_provider_type *)
| InvalidProviderType    (* TypeError, _validate_provider_type *)
| MissingAnnotation      (* TypeError, _validate_provider_match_scopes *)
| ScopeMismatch          (* ValueError, _validate_provider_match_scopes *)
| ContextNotStarted      (* LookupError, _get_request_context *)
| InvalidMode            (* TypeError, create_instance *)
| ResourceNotStarted     (* TypeError, _validate_instance_is_not_resource *)
| KeyError               (* del of a missing key *)
| DanglingContext        (* a reference to no context: never in Python *)
| RecursionError         (* the resolution ran out of fuel *)
| UserError (name : string).  (* raised by the code of a provider or block *)

Global Instance Error_eq_dec : EqDecision Error.
Proof. solve_decision. Defined.

(** The errors that are a [LookupError] in the source. *)
Definition is_LookupError (e : Error) : bool :=
  match e with
  | ProviderAlreadyBound | NotRegistered | BindingDoesNotExist
  | ContextNotStarted | KeyError => true
  | _ => false
  end.

Inductive Res (A : Type) :=
| Ok (a : A)
| Raise (e : Error).
Arguments Ok {A} a.
Arguments Raise {A} e.

Definition M (A : Type) : Type := PyxDI -> Res A * PyxDI.

Global Instance M_ret : MRet M := fun A a di => (Ok a, di).

Global Instance M_bind : MBind M := fun A B f m di =>
  match m di with
  | (Ok a, di') => f a di'
  | (Raise e, di') => (Raise e, di')
  end.

Definition raise {A} (e : Error) : M A := fun di => (Raise e, di).
Definition self : M PyxDI := fun di => (Ok di, di).
Definition modify (f : PyxDI -> PyxDI) : M unit := fun di => (Ok tt, f di).

(** ** Field updates *)

Definition set_providers (f : gmap Interface Provider -> gmap Interface Provider)
    (di : PyxDI) : PyxDI :=
  {| _providers := f (_providers di);
     _singleton_context := _singleton_context di;
     _request_context_var := _request_context_var di;
     _override_instances := _override_instances di;
     request_contexts := request_contexts di;
     contexts_created := contexts_created di;
     event_types_created := event_types_created di;
     objects_created := objects_created di;
     trace := trace di |}.

Definition set_singleton_context (ctx : ScopedContext) (di : PyxDI) : PyxDI :=
  {| _providers := _providers di;
     _singleton_context := ctx;
     _request_context_var := _request_context_var di;
     _override_instances := _override_instances di;
     request_contexts := request_contexts di;
     contexts_created := contexts_created di;
     event_types_created := event_types_created di;
     objects_created := objects_created di;
     trace := trace di |}.

Definition set_request_context_var (v : option nat) (di : PyxDI) : PyxDI :=
  {| _providers := _providers di;
     _singleton_context := _singleton_context di;
     _request_context_var := v;
     _override_instances := _override_instances di;
     request_contexts := request_contexts di;
     contexts_created := contexts_created di;
     event_types_created := event_types_created di;
     objects_created := objects_created di;
     trace := trace di |}.

Definition set_override_instances (f : gmap Interface Value -> gmap Interface Value)
    (di : PyxDI) : PyxDI :=
  {| _providers := _providers di;
     _singleton_context := _singleton_context di;
     _request_context_var := _request_context_var di;
     _override_instances := f (_override_instances di);
     request_contexts := request_contexts di;
     contexts_created := contexts_created di;
     event_types_created := event_types_created di;
     objects_created := objects_created di;
     trace := trace di |}.

Definition set_request_contexts (f : gmap nat ScopedContext -> gmap nat ScopedContext)
    (di : PyxDI) : PyxDI :=
  {| _providers := _providers di;
     _singleton_context := _singleton_context di;
     _request_context_var := _request_context_var di;
     _override_instances := _override_instances di;
     request_contexts := f (request_contexts di);
     contexts_created := contexts_created di;
     event_types_created := event_types_created di;
     objects_created := objects_created di;
     trace := trace di |}.

Definition set_counters (contexts events objects : nat) (di : PyxDI) : PyxDI :=
  {| _providers := _providers di;
     _singleton_context := _singleton_context di;
     _request_context_var := _request_context_var di;
     _override_instances := _override_instances di;
     request_contexts := request_contexts di;
     contexts_created := contexts;
     event_types_created := events;
     objects_created := objects;
     trace := trace di |}.

Definition log (ev : Event) (di : PyxDI) : PyxDI :=
  {| _providers := _providers di;
     _singleton_context := _singleton_context di;
     _request_context_var := _request_context_var di;
     _override_instances := _override_instances di;
     request_contexts := request_contexts di;
     contexts_created := contexts_created di;
     event_types_created := event_types_created di;
     objects_created := objects_created di;
     trace := trace di ++ [ev] |}.

(** ** The provider registry *)

Definition has_provider (interface : Interface) : M bool :=
  di ← self; mret (bool_decide (is_Some (_providers di !! interface))).

Definition get_provider (interface : Interface) : M Provider :=
  di ← self;
  match _providers di !! interface with
  | Some provider => mret provider
  | None => raise BindingDoesNotExist
  end.

(** [type(f"Event{uuid.uuid4().hex}", (), {})]: a new class, different from
    every key that exists. *)
Definition new_event_type : M Interface :=
  di ← self;
  modify (set_counters (contexts_created di) (S (event_types_created di))
            (objects_created di));;
  mret (IEvent (event_types_created di)).

Definition _validate_provider_scope (provider : Provider) : M unit :=
  if bool_decide (scope provider ∈ Scope_args) then mret tt
  else raise InvalidScope.

Definition _validate_provider_type (provider : Provider) : M unit :=
  if is_function provider || is_class provider then mret tt
  else if is_resource provider || is_async_resource provider then
    if bool_decide (scope provider = "transient") then raise TransientResource
    else mret tt
  else raise InvalidProviderType.

(** The first loop of [_validate_provider_match_scopes]. *)
Fixpoint related_providers (params : list Param) : M (list Provider) :=
  match params with
  | [] => mret []
  | parameter :: rest =>
      if bool_decide (annotation parameter = IEmpty) then raise MissingAnnotation
      else
        sub_provider ← get_provider (annotation parameter);
        others ← related_providers rest;
        mret (sub_provider :: others)
  end.

(** [left_scope in (ALLOWED_SCOPES.get(right_scope) or [])] *)
Definition scope_allowed (left_scope right_scope : string) : bool :=
  bool_decide (left_scope ∈ default [] (ALLOWED_SCOPES !! right_scope)).

(** The second loop of [_validate_provider_match_scopes]. *)
Fixpoint match_scopes (provider : Provider) (related : list Provider) : M unit :=
  match related with
  | [] => mret tt
  | related_provider :: rest =>
      if scope_allowed (scope related_provider) (scope provider)
      then match_scopes provider rest
      else raise ScopeMismatch
  end.

Definition _validate_provider_match_scopes (interface : Interface)
    (provider : Provider) : M unit :=
  related ← related_providers (parameters provider);
  match_scopes provider related.

(** The test of [register_provider] for creating an [Event] type:
    [(provider.is_resource or provider.is_async_resource) and
     (interface is NoneType or interface is None)] *)
Definition wants_event_type (provider : Provider) (interface : Interface) : bool :=
  (is_resource provider || is_async_resource provider)
  && (bool_decide (interface = INoneType) || bool_decide (interface = INone)).

Definition register_provider (interface : Interface) (obj : Obj)
    (scope : string) (override : bool) : M Provider :=
  let provider := {| obj := obj; scope := scope |} in
  interface ←
    (if wants_event_type provider interface then new_event_type
     else mret interface);
  bound ← has_provider interface;
  if bound : bool then
    if override : bool then
      modify (set_providers <[interface := provider]>);;
      mret provider
    else raise ProviderAlreadyBound
  else
    _validate_provider_scope provider;;
    _validate_provider_type provider;;
    _validate_provider_match_scopes interface provider;;
    modify (set_providers <[interface := provider]>);;
    mret provider.

(** ** Scoped contexts *)

Definition context_at (ref : ContextRef) (di : PyxDI) : option ScopedContext :=
  match ref with
  | Singleton => Some (_singleton_context di)
  | Request id => request_contexts di !! id
  end.

Definition set_context_at (ref : ContextRef) (ctx : ScopedContext)
    (di : PyxDI) : PyxDI :=
  match ref with
  | Singleton => set_singleton_context ctx di
  | Request id => set_request_contexts <[id := ctx]> di
  end.

Definition read_context (ref : ContextRef) : M ScopedContext :=
  di ← self;
  match context_at ref di with
  | Some ctx => mret ctx
  | None => raise DanglingContext
  end.

Definition update_context (ref : ContextRef) (f : ScopedContext -> ScopedContext)
    : M unit :=
  ctx ← read_context ref;
  modify (set_context_at ref (f ctx)).

Definition set_instances (f : gmap Interface Value -> gmap Interface Value)
    (ctx : ScopedContext) : ScopedContext :=
  {| _scope := _scope ctx; _instances := f (_instances ctx);
     _stack := _stack ctx; _async_stack := _async_stack ctx |}.

Definition set_stack (f : list Obj -> list Obj) (ctx : ScopedContext)
    : ScopedContext :=
  {| _scope := _scope ctx; _instances := _instances ctx;
     _stack := f (_stack ctx); _async_stack := _async_stack ctx |}.

Definition set_async_stack (f : list Obj -> list Obj) (ctx : ScopedContext)
    : ScopedContext :=
  {| _scope := _scope ctx; _instances := _instances ctx;
     _stack := _stack ctx; _async_stack := f (_async_stack ctx) |}.

(** [RequestContext(self)]: a new object. *)
Definition new_request_context : M nat :=
  di ← self;
  let id := contexts_created di in
  modify (set_counters (S id) (event_types_created di) (objects_created di));;
  modify (set_request_contexts <[id := new_context "request"]>);;
  mret id.

Definition _get_request_context : M nat :=
  di ← self;
  match _request_context_var di with
  | None => raise ContextNotStarted
  | Some request_context => mret request_context
  end.

Definition _get_scoped_context (scope : string) : M (option ContextRef) :=
  if bool_decide (scope = "singleton") then mret (Some Singleton)
  else if bool_decide (scope = "request") then
    request_context ← _get_request_context;
    mret (Some (Request request_context))
  else mret None.

(** [ScopedContext.delete]: [self._instances.pop(interface, None)] *)
Definition ScopedContext_delete (ref : ContextRef) (interface : Interface) : M unit :=
  update_context ref (set_instances (delete interface)).

(** ** Calling provider callables *)

Definition new_object : M Value :=
  di ← self;
  modify (set_counters (contexts_created di) (event_types_created di)
            (S (objects_created di)));;
  mret (VObj (objects_created di)).

(** A call of [provider.obj] with the resolved arguments, and for a
    generator the run up to its [yield]. *)
Definition call (o : Obj) (args : list Value) (kwargs : gmap string Value)
    : M Value :=
  di ← self;
  modify (log (EvCall (qualname o)));;
  match body o (trace di) args kwargs with
  | Returns v => mret v
  | New => new_object
  | Raises => raise (UserError (qualname o))
  end.

(** [stack.enter_context(cm)] for the context manager [cm] made of the
    generator, on the exit stack of the context [ref]: the generator runs to
    its [yield]; then its exit is pushed. *)
Definition enter_context (ref : ContextRef) (o : Obj) (args : list Value)
    (kwargs : gmap string Value) : M Value :=
  instance ← call o args kwargs;
  update_context ref (set_stack (fun stack => stack ++ [o]));;
  modify (log (EvSetup ref (qualname o)));;
  mret instance.

(** The same on the async exit stack. *)
Definition enter_async_context (ref : ContextRef) (o : Obj) (args : list Value)
    (kwargs : gmap string Value) : M Value :=
  instance ← call o args kwargs;
  update_context ref (set_async_stack (fun stack => stack ++ [o]));;
  modify (log (EvASetup ref (qualname o)));;
  mret instance.

Definition _validate_instance_is_not_resource (provider : Provider) : M unit :=
  if is_resource provider || is_async_resource provider
  then raise ResourceNotStarted
  else mret tt.

(** ** Resolution

    [get_instance], [ScopedContext.get], [create_resource], [create_instance]
    and [_get_provider_arguments] call each other.  They are written here
    over the recursive call [get_instance_rec], and [get_instance] closes the
    recursion with a bound on its depth, as the interpreter does with its
    recursion limit. *)
Section Resolution.

Variable get_instance_rec : Interface -> M Value.

Fixpoint provider_arguments (params : list Param) (args : list Value)
    (kwargs : gmap string Value) : M (list Value * gmap string Value) :=
  match params with
  | [] => mret (args, kwargs)
  | parameter :: rest =>
      instance ← get_instance_rec (annotation parameter);
      if positional_only parameter
      then provider_arguments rest (args ++ [instance]) kwargs
      else provider_arguments rest args (<[name parameter := instance]> kwargs)
  end.

Definition _get_provider_arguments (provider : Provider)
    : M (list Value * gmap string Value) :=
  provider_arguments (parameters provider) [] ∅.

Definition create_resource (provider : Provider) (stack : ContextRef) : M Value :=
  '(args, kwargs) ← _get_provider_arguments provider;
  enter_context stack (obj provider) args kwargs.

Definition create_instance (provider : Provider) : M Value :=
  _validate_instance_is_not_resource provider;;
  if is_coroutine provider then raise InvalidMode
  else
    '(args, kwargs) ← _get_provider_arguments provider;
    call (obj provider) args kwargs.

(** [ScopedContext.get] of the context [ref]. *)
Definition ScopedContext_get (ref : ContextRef) (interface : Interface) : M Value :=
  ctx ← read_context ref;
  let instance := default VNone (_instances ctx !! interface) in
  if bool_decide (instance = VNone) then
    provider ← get_provider interface;
    instance ←
      (if is_resource provider then create_resource provider ref
       else create_instance provider);
    update_context ref (set_instances <[interface := instance]>);;
    mret instance
  else mret instance.

Definition get_instance_body (interface : Interface) : M Value :=
  di ← self;
  match _override_instances di !! interface with
  | Some instance => mret instance
  | None =>
      provider ← get_provider interface;
      scoped_context ← _get_scoped_context (scope provider);
      match scoped_context with
      | Some ref => ScopedContext_get ref interface
      | None => create_instance provider
      end
  end.

End Resolution.

Fixpoint get_instance (fuel : nat) (interface : Interface) : M Value :=
  match fuel with
  | 0 => raise RecursionError
  | S fuel' => get_instance_body (get_instance fuel') interface
  end.

(** ** Asynchronous resolution

    One task at a time: [await] is sequencing, and [run_async(f, ...)] is the
    call of [f].  What other tasks may do in between is outside this model.
    [aget] runs [create_resource] through [run_async], so the arguments of a
    generator provider are resolved by the synchronous [get_instance]. *)
Section AsyncResolution.

Variable get_instance_rec : Interface -> M Value.
Variable aget_instance_rec : Interface -> M Value.

Definition _aget_provider_arguments (provider : Provider)
    : M (list Value * gmap string Value) :=
  provider_arguments aget_instance_rec (parameters provider) [] ∅.

Definition acreate_resource (provider : Provider) (stack : ContextRef) : M Value :=
  '(args, kwargs) ← _aget_provider_arguments provider;
  enter_async_context stack (obj provider) args kwargs.

Definition acreate_instance (provider : Provider) : M Value :=
  _validate_instance_is_not_resource provider;;
  '(args, kwargs) ← _aget_provider_arguments provider;
  if is_coroutine provider then call (obj provider) args kwargs
  else call (obj provider) args kwargs.

(** [ScopedContext.aget] of the context [ref]. *)
Definition ScopedContext_aget (ref : ContextRef) (interface : Interface) : M Value :=
  ctx ← read_context ref;
  let instance := default VNone (_instances ctx !! interface) in
  if bool_decide (instance = VNone) then
    provider ← get_provider interface;
    instance ←
      (if is_resource provider
       then create_resource get_instance_rec provider ref
       else if is_async_resource provider
       then acreate_resource provider ref
       else acreate_instance provider);
    update_context ref (set_instances <[interface := instance]>);;
    mret instance
  else mret instance.

Definition aget_instance_body (interface : Interface) : M Value :=
  di ← self;
  match _override_instances di !! interface with
  | Some instance => mret instance
  | None =>
      provider ← get_provider interface;
      scoped_context ← _get_scoped_context (scope provider);
      match scoped_context with
      | Some ref => ScopedContext_aget ref interface
      | None => acreate_instance provider
      end
  end.

End AsyncResolution.

Fixpoint aget_instance (fuel : nat) (interface : Interface) : M Value :=
  match fuel with
  | 0 => raise RecursionError
  | S fuel' =>
      aget_instance_body (get_instance fuel') (aget_instance fuel') interface
  end.

(** ** Exit stacks *)

(** [ExitStack.close]: while there is a callback, pop the last one and call
    it.  The exit of a generator resumes the generator, which runs the code
    after its [yield].  When that code raises, the exception is pending from
    then on: each callback that is left is popped and called with it, the
    exit of its generator raises it at the [yield], the generator ends there
    without running its code after the [yield], and [close] raises the
    exception once the stack is empty.  [history] is the trace before
    [close], [done] the events of the teardowns that were run, [pending] the
    exception. *)
Fixpoint drain (fuel : nat) (callbacks : list Obj) (history : list Event)
    (done : list Event) (pending : option Error)
    : list Obj * list Event * option Error :=
  match fuel with
  | 0 => (callbacks, done, pending)
  | S fuel' =>
      match last callbacks with
      | None => (callbacks, done, pending)
      | Some callback =>
          match pending with
          | Some e => drain fuel' (removelast callbacks) history done pending
          | None =>
              drain fuel' (removelast callbacks) history
                (done ++ [EvTeardown (qualname callback)])
                (if teardown_raises callback (history ++ done)
                 then Some (UserError (qualname callback))
                 else None)
          end
      end
  end.

(** [ScopedContext.close]: [self._stack.close()] *)
Definition ScopedContext_close (ref : ContextRef) : M unit :=
  ctx ← read_context ref;
  di ← self;
  let '(rest, done, pending) :=
    drain (length (_stack ctx)) (_stack ctx) (trace di) [] None in
  modify (fun di => fold_left (fun di ev => log ev di) done di);;
  update_context ref (set_stack (fun _ => rest));;
  match pending with
  | Some e => raise e
  | None => mret tt
  end.

(** [ScopedContext.aclose]: the exit stack, then the async exit stack.  When
    [self._stack.close] raises, the async exit stack is not reached. *)
Definition ScopedContext_aclose (ref : ContextRef) : M unit :=
  ScopedContext_close ref;;
  ctx ← read_context ref;
  di ← self;
  let '(rest, done, pending) :=
    drain (length (_async_stack ctx)) (_async_stack ctx) (trace di) [] None in
  modify (fun di => fold_left (fun di ev => log ev di) done di);;
  update_context ref (set_async_stack (fun _ => rest));;
  match pending with
  | Some e => raise e
  | None => mret tt
  end.

(** [PyxDI.close] and [PyxDI.aclose] *)
Definition close : M unit := ScopedContext_close Singleton.
Definition aclose : M unit := ScopedContext_aclose Singleton.

(** ** The request scope and the override block

    Both are generators turned into context managers.  [with cm: block] runs
    the generator to its [yield], then the block.  When the block ends
    normally the generator is resumed after the [yield]; when the block
    raises, the exception is raised inside the generator at the [yield], so
    the statements after the [yield] are skipped, and only the [with]
    statements around the [yield] run their exits. *)

(** The protocol of [contextlib.contextmanager] around a block: [resume] is
    what the generator does after its [yield] when it is resumed, [unwind]
    what it does when the exception of the block is raised at its [yield]. *)
Definition with_generator {A} (block : M A) (resume unwind : M unit) : M A :=
  fun di =>
    match block di with
    | (Ok a, di') => (resume;; mret a) di'
    | (Raise e, di') => (unwind;; raise e) di'
    end.

(** [with self.request_context(): block].  In [_request_context] the reset
    of the variable comes after the [yield], inside [with context], whose
    exit closes the context. *)
Definition request_context {A} (block : M A) : M A :=
  context ← new_request_context;
  token ← (di ← self; mret (_request_context_var di));
  modify (set_request_context_var (Some context));;
  with_generator block
    (modify (set_request_context_var token);;
     ScopedContext_close (Request context))
    (ScopedContext_close (Request context)).

(** [async with self.arequest_context(): block] *)
Definition arequest_context {A} (block : M A) : M A :=
  context ← new_request_context;
  token ← (di ← self; mret (_request_context_var di));
  modify (set_request_context_var (Some context));;
  with_generator block
    (modify (set_request_context_var token);;
     ScopedContext_aclose (Request context))
    (ScopedContext_aclose (Request context)).

(** [del self._override_instances[interface]] *)
Definition del_override_instance (interface : Interface) : M unit :=
  di ← self;
  match _override_instances di !! interface with
  | Some _ => modify (set_override_instances (delete interface))
  | None => raise KeyError
  end.

(** [with self.override(interface, instance): block] *)
Definition override {A} (interface : Interface) (instance : Value)
    (block : M A) : M A :=
  bound ← has_provider interface;
  if negb bound then raise NotRegistered
  else
    modify (set_override_instances <[interface := instance]>);;
    with_generator block (del_override_instance interface) (mret tt).

(** ** Unregistering *)

Definition unregister_provider (interface : Interface) : M unit :=
  bound ← has_provider interface;
  if negb bound then raise NotRegistered
  else
    provider ← get_provider interface;
    (fun di =>
       match _get_scoped_context (scope provider) di with
       | (Raise e, di') =>
           if is_LookupError e then (Ok tt, di') else (Raise e, di')
       | (Ok (Some scoped_context), di') =>
           ScopedContext_delete scoped_context interface di'
       | (Ok None, di') => (Ok tt, di')
       end);;
    modify (set_providers (delete interface)).

(** ** Starting the singleton context

    [SingletonContext.start] and [astart] go through
    [self._root.providers.items()].  The registry is a map here and does not
    keep the order in which a Python dict yields its items, so they take it:
    [items] is the list of the items of the registry in that order. *)

(** [SingletonContext._iter_providers]: the items whose provider has the
    scope of the context. *)
Definition _iter_providers (context_scope : string)
    (items : list (Interface * Provider)) : list (Interface * Provider) :=
  filter (fun item => scope item.2 = context_scope) items.

(** [self._instances[interface] = instance] in the singleton context. *)
Definition set_singleton_instance (interface : Interface) (instance : Value)
    : M unit :=
  update_context Singleton (set_instances <[interface := instance]>).

(** The loop of [SingletonContext.start].  The exception for an async
    generator is a [TypeError]. *)
Fixpoint start_loop (fuel : nat) (yielded : list (Interface * Provider))
    : M unit :=
  match yielded with
  | [] => mret tt
  | (interface, provider) :: rest =>
      if is_resource provider then
        instance ← create_resource (get_instance fuel) provider Singleton;
        set_singleton_instance interface instance;;
        start_loop fuel rest
      else if is_async_resource provider then raise InvalidMode
      else start_loop fuel rest
  end.

(** The loop of [SingletonContext.astart]. *)
Fixpoint astart_loop (fuel : nat) (yielded : list (Interface * Provider))
    : M unit :=
  match yielded with
  | [] => mret tt
  | (interface, provider) :: rest =>
      if is_resource provider then
        instance ← create_resource (get_instance fuel) provider Singleton;
        set_singleton_instance interface instance;;
        astart_loop fuel rest
      else if is_async_resource provider then
        instance ← acreate_resource (aget_instance fuel) provider Singleton;
        set_singleton_instance interface instance;;
        astart_loop fuel rest
      else astart_loop fuel rest
  end.

(** [PyxDI.start] and [PyxDI.astart], which call the singleton context's. *)
Definition start (fuel : nat) (items : list (Interface * Provider)) : M unit :=
  ctx ← read_context Singleton;
  start_loop fuel (_iter_providers (_scope ctx) items).

Definition astart (fuel : nat) (items : list (Interface * Provider)) : M unit :=
  ctx ← read_context Singleton;
  astart_loop fuel (_iter_providers (_scope ctx) items).

(** ** Injection

    [inject] looks at the parameters of the callable it decorates.
    [marked] says that the default of the parameter is a [DependencyMark].
    The two exceptions of [_validate_injected_parameter] are [TypeError]s. *)
Record CallParam := {
  param : Param;
  marked : bool;
}.

Inductive InjectError :=
| InjectMissingAnnotation
| InjectUnknownDependency.

(** [has_provider] is [interface in self._providers]. *)
Definition _validate_injected_parameter (di : PyxDI) (parameter : Param)
    : option InjectError :=
  if bool_decide (annotation parameter = IEmpty)
  then Some InjectMissingAnnotation
  else if bool_decide (is_Some (_providers di !! annotation parameter))
  then None
  else Some InjectUnknownDependency.

(** [_get_injected_params]: the names and annotations of the marked
    parameters, in the order of the signature. *)
Fixpoint _get_injected_params (di : PyxDI) (params : list CallParam)
    : InjectError + list (string * Interface) :=
  match params with
  | [] => inr []
  | parameter :: rest =>
      if marked parameter then
        match _validate_injected_parameter di (param parameter) with
        | Some e => inl e
        | None =>
            match _get_injected_params di rest with
            | inl e => inl e
            | inr injected_params =>
                inr ((name (param parameter), annotation (param parameter))
                       :: injected_params)
            end
        end
      else _get_injected_params di rest
  end.

(** The loop of [wrapped] and [awrapped]:
    [kwargs[name] = self.get_instance(annotation)] for each item. *)
Fixpoint injected_kwargs (get_instance_rec : Interface -> M Value)
    (injected_params : list (string * Interface)) (kwargs : gmap string Value)
    : M (gmap string Value) :=
  match injected_params with
  | [] => mret kwargs
  | (name, annotation) :: rest =>
      instance ← get_instance_rec annotation;
      injected_kwargs get_instance_rec rest (<[name := instance]> kwargs)
  end.

(** A call of the callable that [inject] returns for a function, and for a
    coroutine function. *)
Definition wrapped (fuel : nat) (injected_params : list (string * Interface))
    (o : Obj) (args : list Value) (kwargs : gmap string Value) : M Value :=
  kwargs ← injected_kwargs (get_instance fuel) injected_params kwargs;
  call o args kwargs.

Definition awrapped (fuel : nat) (injected_params : list (string * Interface))
    (o : Obj) (args : list Value) (kwargs : gmap string Value) : M Value :=
  kwargs ← injected_kwargs (aget_instance fuel) injected_params kwargs;
  call o args kwargs.

(** [inject(obj)]: the check of the marked parameters, made once, and the
    callable that takes the place of [obj]. *)
Definition inject (di : PyxDI) (params : list CallParam) (o : Obj)
    : InjectError + (nat -> list Value -> gmap string Value -> M Value) :=
  match _get_injected_params di params with
  | inl e => inl e
  | inr injected_params =>
      inr (fun fuel =>
             match kind o with
             | Coroutine => awrapped fuel injected_params o
             | _ => wrapped fuel injected_params o
             end)
  end.

(** * Notions used in the statements *)

(** The result of a computation and the container it leaves. *)
Definition result {A} (m : M A) (di : PyxDI) : Res A := (m di).1.
Definition after {A} (m : M A) (di : PyxDI) : PyxDI := (m di).2.

(** A computation that only reads the container. *)
Definition readonly {A} (m : M A) : Prop := forall di, after m di = di.

(** The exceptions that [register_provider] raises.  [TransientResource] is
    the [TypeError] for a resource provider with the transient scope, and
    [BindingDoesNotExist] is here the [LookupError] of [get_provider] for a
    parameter whose annotation has no provider: the unknown dependency. *)
Definition registration_errors : list Error :=
  [ ProviderAlreadyBound; InvalidScope; TransientResource; InvalidProviderType;
    MissingAnnotation; BindingDoesNotExist; ScopeMismatch ].

(** The part of the container that registration does not touch. *)
Definition same_contexts (di di' : PyxDI) : Prop :=
  _singleton_context di' = _singleton_context di /\
  _request_context_var di' = _request_context_var di /\
  _override_instances di' = _override_instances di /\
  request_contexts di' = request_contexts di /\
  trace di' = trace di.

(** The names of the generators whose exit a list of events pushed on the
    exit stack of the context [ref], in order; and the same for its async
    exit stack. *)
Definition pushes (ref : ContextRef) (evs : list Event) : list string :=
  omap (fun ev =>
          match ev with
          | EvSetup r name => if decide (r = ref) then Some name else None
          | _ => None
          end) evs.

Definition async_pushes (ref : ContextRef) (evs : list Event) : list string :=
  omap (fun ev =>
          match ev with
          | EvASetup r name => if decide (r = ref) then Some name else None
          | _ => None
          end) evs.

(** [resolving di di']: the container [di'] is [di] after some resolutions.
    The registry, the request handle and the override map are the same; the
    trace has grown; and every exit stack has grown by exactly the exits that
    the new events pushed on it. *)
Record resolving (di di' : PyxDI) : Prop := {
  resolving_providers : _providers di' = _providers di;
  resolving_var : _request_context_var di' = _request_context_var di;
  resolving_overrides : _override_instances di' = _override_instances di;
  resolving_contexts :
    exists evs, trace di' = trace di ++ evs /\
      forall ref ctx, context_at ref di = Some ctx ->
        exists ctx' pushed apushed, context_at ref di' = Some ctx' /\
          _stack ctx' = _stack ctx ++ pushed /\
          map qualname pushed = pushes ref evs /\
          _async_stack ctx' = _async_stack ctx ++ apushed /\
          map qualname apushed = async_pushes ref evs;
}.

(** A computation that does to the container what resolutions do. *)
Definition preserves {A} (m : M A) : Prop := forall di, resolving di (after m di).

(** The event of the teardown of a generator; and a generator whose code
    after the [yield] never raises. *)
Definition teardown_of (o : Obj) : Event := EvTeardown (qualname o).

Definition teardown_completes (o : Obj) : Prop :=
  forall history, teardown_raises o history = false.

(** [resolved_in_turn fuel ref di resources di']: a caller resolves the
    interfaces of [resources] one after the other, which takes the container
    from [di] to [di'].  Each interface is bound to a generator provider
    whose scope the context [ref] owns, has no override and no object in the
    cache of [ref] when its turn comes, and its resolution returns. *)
Inductive resolved_in_turn (fuel : nat) (ref : ContextRef)
    : PyxDI -> list (Interface * Provider) -> PyxDI -> Prop :=
| resolved_nil di : resolved_in_turn fuel ref di [] di
| resolved_cons di interface provider ctx instance di1 rest di' :
    _providers di !! interface = Some provider ->
    is_resource provider = true ->
    _get_scoped_context (scope provider) di = (Ok (Some ref), di) ->
    _override_instances di !! interface = None ->
    context_at ref di = Some ctx ->
    default VNone (_instances ctx !! interface) = VNone ->
    get_instance fuel interface di = (Ok instance, di1) ->
    resolved_in_turn fuel ref di1 rest di' ->
    resolved_in_turn fuel ref di ((interface, provider) :: rest) di'.

(** The setup of a generator, its code up to the [yield], never raises. *)
Definition setup_completes (o : Obj) : Prop :=
  forall history args kwargs, body o history args kwargs <> Raises.

(** [ready ref di resource]: the interface is bound to the provider, a
    generator without parameters whose setup never raises and whose scope
    the context [ref] owns, and it has no override. *)
Definition ready (ref : ContextRef) (di : PyxDI)
    (resource : Interface * Provider) : Prop :=
  _providers di !! resource.1 = Some resource.2 /\
  is_resource resource.2 = true /\
  parameters resource.2 = [] /\
  setup_completes (obj resource.2) /\
  _get_scoped_context (scope resource.2) di = (Ok (Some ref), di) /\
  _override_instances di !! resource.1 = None.

(** One resolution asked by a caller. *)
Inductive Resolution :=
| Get (interface : Interface)     (* [get_instance(interface)] *)
| AGet (interface : Interface).   (* [await aget_instance(interface)] *)

(** A caller that makes one resolution after the other, whatever each of
    them returns or raises. *)
Definition resolve_all (fuel : nat) (resolutions : list Resolution)
    (di : PyxDI) : PyxDI :=
  fold_left
    (fun di resolution =>
       match resolution with
       | Get interface => after (get_instance fuel interface) di
       | AGet interface => after (aget_instance fuel interface) di
       end)
    resolutions di.

(** How many times the provider callable [name] was invoked. *)
Definition calls (name : string) (history : list Event) : nat :=
  length (filter (fun ev => ev = EvCall name) history).

(** [invoked o v di di']: between [di] and [di'] the callable [o] was called,
    and [v] is what the call produced. *)
Definition invoked (o : Obj) (v : Value) (di di' : PyxDI) : Prop :=
  exists before args kwargs later,
    trace di' = trace di ++ before ++ [EvCall (qualname o)] ++ later /\
    (body o (trace di ++ before) args kwargs = Returns v \/
     body o (trace di ++ before) args kwargs = New /\ v <> VNone).




(** The key under which [register_provider] files the provider: the
    interface it was given, or the [Event] type it creates. *)
Definition effective_interface (di : PyxDI) (provider : Provider)
    (interface : Interface) : Interface :=
  if wants_event_type provider interface
  then IEvent (event_types_created di)
  else interface.

(** An interface that a caller can hold: an [Event] type is one that was
    created before. *)
Definition interface_exists (di : PyxDI) (interface : Interface) : Prop :=
  match interface with
  | IEvent n => n < event_types_created di
  | _ => True
  end.

(** Every [Event] type in the registry was created before. *)
Definition event_types_fresh (di : PyxDI) : Prop :=
  forall n, is_Some (_providers di !! IEvent n) -> n < event_types_created di.

(** The request handle refers to a context that exists. *)
Definition handle_valid (di : PyxDI) : Prop :=
  forall id, _request_context_var di = Some id ->
    is_Some (request_contexts di !! id).

(** The scopes with which [register_provider] lets a provider object of
    each kind in. *)
Definition scopes_for (k : ObjKind) : list string :=
  match k with
  | Function | Coroutine | Class => ["transient"; "singleton"; "request"]
  | Generator | AsyncGenerator => ["singleton"; "request"]
  | Other => []
  end.

(** The container at the [yield] of [_request_context]: a new
    [RequestContext] exists and the handle refers to it. *)
Definition entered (di : PyxDI) : PyxDI :=
  set_request_context_var (Some (contexts_created di))
    (after new_request_context di).

(** What the synchronous [get_instance] answers for a provider object of
    kind [k] that it has to build, in the scoped context [owner] or in none:
    the exception it raises before it looks at any parameter, if it does. *)
Definition sync_refusal (k : ObjKind) (owner : option ContextRef)
    : option Error :=
  match k, owner with
  | Coroutine, _ => Some InvalidMode
  | AsyncGenerator, _ => Some ResourceNotStarted
  | Generator, None => Some ResourceNotStarted
  | _, _ => None
  end.

(** A computation after which the container is related by [R] to what it
    was. *)
Definition keeps (R : PyxDI -> PyxDI -> Prop) {A} (m : M A) : Prop :=
  forall di, R di (after m di).

(** [grows di di']: what resolutions never take back.  Objects are only
    created; no [Event] type and no context is created; an entry of an
    instance cache stays, and an object in a cache stays that object. *)
Record grows (di di' : PyxDI) : Prop := {
  grows_objects : objects_created di <= objects_created di';
  grows_event_types : event_types_created di' = event_types_created di;
  grows_contexts : contexts_created di' = contexts_created di;
  grows_entries :
    forall ref ctx interface, context_at ref di = Some ctx ->
      is_Some (_instances ctx !! interface) ->
      exists ctx', context_at ref di' = Some ctx' /\
        is_Some (_instances ctx' !! interface);
  grows_cached :
    forall ref ctx interface instance, context_at ref di = Some ctx ->
      _instances ctx !! interface = Some instance -> instance <> VNone ->
      exists ctx', context_at ref di' = Some ctx' /\
        _instances ctx' !! interface = Some instance;
}.

(** The provider callable makes a new object at every call. *)
Definition makes_new (o : Obj) : Prop :=
  forall history args kwargs, body o history args kwargs = New.

(** [items] lists the registry: what [providers.items()] yields, in some
    order. *)
Definition lists_registry (di : PyxDI) (items : list (Interface * Provider))
    : Prop :=
  items ≡ₚ map_to_list (_providers di).

(** The provider is one that [start] sets up: a generator with the scope of
    the singleton context. *)
Definition started_by (di : PyxDI) (provider : Provider) : Prop :=
  scope provider = _scope (_singleton_context di) /\
  is_resource provider = true.

(** The arguments that a provider is called with when [instance_of] gives
    the instance of each annotation: the instances of the positional-only
    parameters, in order, and the instances of the others under their names. *)
Definition positional_arguments (instance_of : Interface -> Value)
    (params : list Param) : list Value :=
  map (fun q => instance_of (annotation q))
      (filter (fun q => positional_only q = true) params).

Definition set_arguments (instance_of : Interface -> Value)
    (params : list Param) (kwargs : gmap string Value) : gmap string Value :=
  foldl (fun kwargs q => <[name q := instance_of (annotation q)]> kwargs) kwargs
        params.

Definition keyword_arguments (instance_of : Interface -> Value)
    (params : list Param) (kwargs : gmap string Value) : gmap string Value :=
  set_arguments instance_of (filter (fun q => positional_only q = false) params)
                kwargs.

(** Resolving [interface] in [di] gives [instance_of interface] and leaves
    [di] as it is: the case of an overridden interface and of one whose
    instance is cached. *)
Definition settled (resolve : Interface -> M Value)
    (instance_of : Interface -> Value) (di : PyxDI) (q : Param) : Prop :=
  resolve (annotation q) di = (Ok (instance_of (annotation q)), di).

(** What [_validate_injected_parameter] accepts. *)
Definition injectable (di : PyxDI) (q : Param) : Prop :=
  annotation q <> IEmpty /\ is_Some (_providers di !! annotation q).

(** The marked parameters of a signature. *)
Definition marked_params (params : list CallParam) : list Param :=
  param <$> filter (fun q => marked q = true) params.

(** * Providers and containers of the examples *)

(** A function that makes a new object at every call, and a parameter passed
    by keyword. *)
Definition plain (qualname : string) (signature : list Param) : Obj :=
  {| qualname := qualname; kind := Function; signature := signature;
     body := fun _ _ _ => New; teardown_raises := fun _ => false |}.

Definition keyword (name : string) (annotation : Interface) : Param :=
  {| name := name; annotation := annotation; positional_only := false |}.

(** A generator function that yields a new object. *)
Definition resource (qualname : string) (signature : list Param) : Obj :=
  {| qualname := qualname; kind := Generator; signature := signature;
     body := fun _ _ _ => New; teardown_raises := fun _ => false |}.

(** The chain of the scope tests: [a] provides [int], [b] takes an [int] and
    provides [float], [mixed] takes both and provides [str].  The
    dependencies are registered first. *)
Definition chain_a : Obj := plain "a" [].
Definition chain_b : Obj := plain "b" [keyword "a" (IType "int")].
Definition chain_mixed : Obj :=
  plain "mixed" [keyword "a" (IType "int"); keyword "b" (IType "float")].

Definition register_chain (scope1 scope2 scope3 : string) : M unit :=
  register_provider (IType "int") chain_a scope3 false;;
  register_provider (IType "float") chain_b scope2 false;;
  register_provider (IType "str") chain_mixed scope1 false;;
  mret tt.

(** A container in which [str] and [int] are bound, [int] to a
    request-scoped provider; and a function that takes an [int]. *)
Definition di_str_int : PyxDI :=
  after (register_provider (IType "int") chain_a "request" false;;
         register_provider (IType "str") (plain "f" []) "singleton" false)
        new_PyxDI.

Definition takes_int : Obj := plain "g" [keyword "a" (IType "int")].

(** A provider object that fails each of the three validations: not a
    callable, and with a parameter without annotation. *)
Definition not_callable : Obj :=
  {| qualname := "Test"; kind := Other;
     signature := [keyword "x" IEmpty];
     body := fun _ _ _ => Raises; teardown_raises := fun _ => false |}.

(** Two generator providers, registered [A] then [B] as singletons. *)
Definition di_A_B : PyxDI :=
  after (register_provider (IType "A") (resource "A" []) "singleton" false;;
         register_provider (IType "B") (resource "B" []) "singleton" false)
        new_PyxDI.

(** A provider that returns [None] the first time it is called and a new
    object from then on, registered as a singleton. *)
Definition late : Obj :=
  {| qualname := "late"; kind := Function; signature := [];
     body := fun history _ _ =>
               if bool_decide (EvCall "late" ∈ history) then New
               else Returns VNone;
     teardown_raises := fun _ => false |}.

Definition di_late : PyxDI :=
  after (register_provider (IType "Service") late "singleton" false) new_PyxDI.

(** A provider that returns [None], registered as a singleton. *)
Definition nothing : Obj :=
  {| qualname := "nothing"; kind := Function; signature := [];
     body := fun _ _ _ => Returns VNone; teardown_raises := fun _ => false |}.

Definition di_nothing : PyxDI :=
  after (register_provider (IType "Service") nothing "singleton" false) new_PyxDI.

(** A container in which [str] is bound to a singleton provider; and the
    same after one resolution of [str]. *)
Definition di_str : PyxDI :=
  after (register_provider (IType "str") (plain "f" []) "singleton" false)
        new_PyxDI.

Definition di_resolved : PyxDI :=
  after (get_instance 1 (IType "str")) di_str.

(** A container in which [Service] is bound to a request-scoped provider. *)
Definition di_request : PyxDI :=
  after (register_provider (IType "Service") (plain "service" []) "request" false)
        new_PyxDI.

(** A generator registered without an interface, in a new container. *)
Definition di_event : PyxDI :=
  after (register_provider INone (resource "on_start" []) "singleton" false)
        new_PyxDI.

(** A container in which [Service] is bound to a coroutine function. *)
Definition di_coroutine : PyxDI :=
  after (register_provider (IType "Service")
           {| qualname := "fetch"; kind := Coroutine; signature := [];
              body := fun _ _ _ => New;
              teardown_raises := fun _ => false |} "singleton" false)
        new_PyxDI.

(** A container in which [Service] is bound to a transient provider. *)
Definition di_transient : PyxDI :=
  after (register_provider (IType "Service") (plain "service" []) "transient" false)
        new_PyxDI.

(** The items of [di_A_B] in the order of the registrations. *)
Definition items_A_B : list (Interface * Provider) :=
  [ (IType "A", {| obj := resource "A" []; scope := "singleton" |});
    (IType "B", {| obj := resource "B" []; scope := "singleton" |}) ].

(** A container with one singleton async generator, and its items. *)
Definition async_resource : Obj :=
  {| qualname := "connect"; kind := AsyncGenerator; signature := [];
     body := fun _ _ _ => New; teardown_raises := fun _ => false |}.

Definition di_async : PyxDI :=
  after (register_provider (IType "Connection") async_resource "singleton" false)
        new_PyxDI.

Definition items_async : list (Interface * Provider) :=
  [ (IType "Connection", {| obj := async_resource; scope := "singleton" |}) ].

(** The items of [di_str]. *)
Definition items_str : list (Interface * Provider) :=
  [ (IType "str", {| obj := plain "f" []; scope := "singleton" |}) ].

(** The provider of the argument test: [service(a: int, /, b: float, *, c: str)],
    in a container where the three interfaces are overridden. *)
Definition service_a_b_c : Obj :=
  plain "service"
    [ {| name := "a"; annotation := IType "int"; positional_only := true |};
      keyword "b" (IType "float"); keyword "c" (IType "str") ].

Definition instance_of_a_b_c (interface : Interface) : Value :=
  match interface with
  | IType "int" => VObj 10
  | IType "float" => VObj 11
  | _ => VObj 12
  end.

Definition di_a_b_c : PyxDI :=
  set_override_instances
    (fun _ => list_to_map [ (IType "int", VObj 10); (IType "float", VObj 11);
                            (IType "str", VObj 12) ])
    (after (register_provider (IType "int") chain_a "transient" false;;
            register_provider (IType "float") chain_a "transient" false;;
            register_provider (IType "str") chain_a "transient" false;;
            register_provider (IType "Service") service_a_b_c "transient" false)
           new_PyxDI).

(** A function with one injected parameter, [service: str = dep]. *)
Definition handler : Obj := plain "handler" [keyword "service" (IType "str")].

Definition handler_params : list CallParam :=
  [ {| param := keyword "name" IEmpty; marked := false |};
    {| param := keyword "service" (IType "str"); marked := true |} ].

(** A container in which [int] and [str] are bound to singleton providers
    and [str] has been resolved. *)
Definition di_cached : PyxDI :=
  after (register_provider (IType "int") chain_a "singleton" false;;
         register_provider (IType "str") (plain "f" []) "singleton" false;;
         get_instance 1 (IType "str"))
        new_PyxDI.

(** The registration of another singleton provider for [str], with
    [override=True]. *)
Definition register_other : M Provider :=
  register_provider (IType "str") (plain "other" []) "singleton" true.

Definition register_other_Service : M Provider :=
  register_provider (IType "Service") (plain "other" []) "singleton" true.

(** Two request-scoped generator providers, [A] and [B]. *)
Definition di_request_A_B : PyxDI :=
  after (register_provider (IType "A") (resource "A" []) "request" false;;
         register_provider (IType "B") (resource "B" []) "request" false)
        new_PyxDI.

(** An async generator that yields a new object. *)
Definition aresource (qualname : string) : Obj :=
  {| qualname := qualname; kind := AsyncGenerator; signature := [];
     body := fun _ _ _ => New; teardown_raises := fun _ => false |}.

(** Generators [A] and [B] and async generators [C] and [D], singletons, all
    four resolved in this order by [aget_instance]. *)
Definition di_A_B_C_D : PyxDI :=
  after (register_provider (IType "A") (resource "A" []) "singleton" false;;
         register_provider (IType "B") (resource "B" []) "singleton" false;;
         register_provider (IType "C") (aresource "C") "singleton" false;;
         register_provider (IType "D") (aresource "D") "singleton" false;;
         aget_instance 1 (IType "A");; aget_instance 1 (IType "B");;
         aget_instance 1 (IType "C");; aget_instance 1 (IType "D"))
        new_PyxDI.

(** A generator whose code after the [yield] raises. *)
Definition broken (qualname : string) : Obj :=
  {| qualname := qualname; kind := Generator; signature := [];
     body := fun _ _ _ => New; teardown_raises := fun _ => true |}.

(** Generators [A], the broken [B] and [C] and the async generator [D],
    singletons, all four resolved in this order by [aget_instance]. *)
Definition di_broken : PyxDI :=
  after (register_provider (IType "A") (resource "A" []) "singleton" false;;
         register_provider (IType "B") (broken "B") "singleton" false;;
         register_provider (IType "C") (resource "C" []) "singleton" false;;
         register_provider (IType "D") (aresource "D") "singleton" false;;
         aget_instance 1 (IType "A");; aget_instance 1 (IType "B");;
         aget_instance 1 (IType "C");; aget_instance 1 (IType "D"))
        new_PyxDI.

(** A block that raises. *)
Definition failing_block : M unit := raise (UserError "block").

(** The instance ["other"] of the override: an object made elsewhere. *)
Definition other : Value := VObj 100.

(** * Reasoning about computations *)

Lemma bind_unfold {A B} (m : M A) (f : A -> M B) di :
  (m ≫= f) di =
  match m di with
  | (Ok a, di') => f a di'
  | (Raise e, di') => (Raise e, di')
  end.
Proof. reflexivity. Qed.

Lemma after_run {A} (m : M A) di r di' : m di = (r, di') -> after m di = di'.
Proof. unfold after. by intros ->. Qed.

Lemma result_run {A} (m : M A) di r di' : m di = (r, di') -> result m di = r.
Proof. unfold result. by intros ->. Qed.

Lemma bind_inv {A B} (m : M A) (f : A -> M B) di r di' :
  (m ≫= f) di = (r, di') ->
  (exists a di1, m di = (Ok a, di1) /\ f a di1 = (r, di')) \/
  (exists e, m di = (Raise e, di') /\ r = Raise e).
Proof.
  rewrite bind_unfold. destruct (m di) as [[a|e] di1]; intros H.
  - left. eauto.
  - right. exists e. by inversion H.
Qed.

(** Unfolds the monad in the goal. *)
Ltac run_monad :=
  unfold mbind, M_bind, mret, M_ret, self, modify, raise; simpl.

Lemma readonly_ret {A} (a : A) : readonly (mret a).
Proof. done. Qed.

Lemma readonly_raise {A} e : readonly (@raise A e).
Proof. done. Qed.

Lemma readonly_self : readonly self.
Proof. done. Qed.

Lemma readonly_bind {A B} (m : M A) (f : A -> M B) :
  readonly m -> (forall a, readonly (f a)) -> readonly (m ≫= f).
Proof.
  intros Hm Hf di. unfold after. rewrite bind_unfold.
  specialize (Hm di). unfold after in Hm.
  destruct (m di) as [[a|e] di1]; simpl in *; subst; [apply Hf | done].
Qed.

Lemma readonly_eq {A} (m : M A) di r di' :
  readonly m -> m di = (r, di') -> di' = di.
Proof. intros H E. specialize (H di). unfold after in H. by rewrite E in H. Qed.

Create HintDb readonly.
#[export] Hint Resolve readonly_ret readonly_raise readonly_self : readonly.

Ltac readonly :=
  repeat first
    [ apply readonly_bind; [| intros ?]
    | progress eauto with readonly
    | match goal with
      | |- readonly (if ?b then _ else _) => destruct b
      | |- readonly (match ?x with _ => _ end) => destruct x
      end ].

Lemma readonly_has_provider interface : readonly (has_provider interface).
Proof. unfold has_provider. readonly. Qed.

Lemma readonly_get_provider interface : readonly (get_provider interface).
Proof. unfold get_provider. readonly. Qed.

#[export] Hint Resolve readonly_has_provider readonly_get_provider : readonly.

Lemma readonly__validate_provider_scope provider :
  readonly (_validate_provider_scope provider).
Proof. unfold _validate_provider_scope. readonly. Qed.

Lemma readonly__validate_provider_type provider :
  readonly (_validate_provider_type provider).
Proof. unfold _validate_provider_type. readonly. Qed.

Lemma readonly_related_providers params : readonly (related_providers params).
Proof. induction params as [|parameter rest IH]; simpl; readonly. Qed.

Lemma readonly_match_scopes provider related :
  readonly (match_scopes provider related).
Proof. induction related as [|related_provider rest IH]; simpl; readonly. Qed.

#[export] Hint Resolve readonly__validate_provider_scope
  readonly__validate_provider_type readonly_related_providers
  readonly_match_scopes : readonly.

Lemma readonly__validate_provider_match_scopes interface provider :
  readonly (_validate_provider_match_scopes interface provider).
Proof. unfold _validate_provider_match_scopes. readonly. Qed.

#[export] Hint Resolve readonly__validate_provider_match_scopes : readonly.

Lemma readonly__get_request_context : readonly _get_request_context.
Proof. unfold _get_request_context. readonly. Qed.

#[export] Hint Resolve readonly__get_request_context : readonly.

Lemma readonly__get_scoped_context scope : readonly (_get_scoped_context scope).
Proof. unfold _get_scoped_context. readonly. Qed.

#[export] Hint Resolve readonly__get_scoped_context : readonly.

(** * The registry *)

Lemma _validate_provider_scope_inv provider di r di' :
  _validate_provider_scope provider di = (r, di') ->
  di' = di /\
  (r = Ok tt /\ scope provider ∈ Scope_args \/
   r = Raise InvalidScope /\ scope provider ∉ Scope_args).
Proof.
  unfold _validate_provider_scope. case_bool_decide; intros [= <- <-]; auto.
Qed.

Lemma _validate_provider_type_inv provider di r di' :
  _validate_provider_type provider di = (r, di') ->
  di' = di /\
  (r = Ok tt \/ r = Raise TransientResource \/ r = Raise InvalidProviderType).
Proof.
  unfold _validate_provider_type.
  destruct (_ || _); [intros [= <- <-]; auto|].
  destruct (_ || _); [|intros [= <- <-]; auto].
  case_bool_decide; intros [= <- <-]; auto.
Qed.

Lemma related_providers_inv params di r di' :
  related_providers params di = (r, di') ->
  di' = di /\
  match r with
  | Ok related =>
      Forall2 (fun parameter sub_provider =>
                 annotation parameter <> IEmpty /\
                 _providers di !! annotation parameter = Some sub_provider)
              params related
  | Raise e => e = MissingAnnotation \/ e = BindingDoesNotExist
  end.
Proof.
  revert r di'. induction params as [|parameter rest IH]; simpl; intros r di'.
  - intros [= <- <-]. auto.
  - case_bool_decide as Hann; [intros [= <- <-]; auto|].
    rewrite bind_unfold. unfold get_provider at 1. rewrite bind_unfold. simpl.
    destruct (_providers di !! annotation parameter) as [sub_provider|] eqn:Hsub;
      simpl; [|intros [= <- <-]; auto].
    rewrite bind_unfold.
    destruct (related_providers rest di) as [[others|e] di1] eqn:Hrest.
    + destruct (IH _ _ eq_refl) as [-> Hothers]. simpl.
      intros [= <- <-]. split; [done|]. by constructor.
    + destruct (IH _ _ eq_refl) as [-> He]. intros [= <- <-]. auto.
Qed.

Lemma match_scopes_inv provider related di r di' :
  match_scopes provider related di = (r, di') ->
  di' = di /\
  (r = Ok tt /\
     Forall (fun related_provider =>
               scope_allowed (scope related_provider) (scope provider) = true)
            related
   \/
   r = Raise ScopeMismatch /\
     Exists (fun related_provider =>
               scope_allowed (scope related_provider) (scope provider) = false)
            related).
Proof.
  induction related as [|related_provider rest IH]; simpl.
  - intros [= <- <-]. auto.
  - destruct (scope_allowed _ _) eqn:Hallowed.
    + intros H. destruct (IH H) as [-> [[-> Hall]|[-> Hex]]]; split; auto.
    + intros [= <- <-]. split; [done|]. right. split; [done|].
      by apply Exists_cons_hd.
Qed.

Lemma effective_interface_inv provider interface di r di' :
  (if wants_event_type provider interface then new_event_type
   else mret interface) di = (r, di') ->
  exists interface', r = Ok interface' /\
    _providers di' = _providers di /\ same_contexts di di' /\
    (wants_event_type provider interface = false -> interface' = interface /\ di' = di).
Proof.
  destruct (wants_event_type provider interface); intros [= <- <-];
    eexists; (split; [done|]); repeat split; done.
Qed.

(** C7.  Whenever [register_provider] raises, the exception is one of its
    registration errors and the provider registry is exactly what it was
    before the call: nothing was inserted or replaced.  The scoped contexts,
    the request handle and the override map are untouched as well. *)
Theorem register_provider_error_atomic interface obj scope override di e di' :
  register_provider interface obj scope override di = (Raise e, di') ->
  e ∈ registration_errors /\
  _providers di' = _providers di /\
  same_contexts di di'.
Proof.
  unfold register_provider, registration_errors.
  set (provider := {| obj := obj; scope := scope |}).
  rewrite bind_unfold.
  destruct ((if wants_event_type provider interface then new_event_type
             else mret interface) di) as [r0 di0] eqn:H0.
  destruct (effective_interface_inv _ _ _ _ _ H0)
    as (interface' & -> & Hprov & Hsame & _).
  rewrite bind_unfold. unfold has_provider at 1. rewrite bind_unfold. simpl.
  case_bool_decide as Hbound.
  - destruct override; [discriminate|].
    intros [= <- <-]. split; [set_solver|]. done.
  - rewrite bind_unfold.
    destruct (_validate_provider_scope provider di0) as [r1 di1] eqn:H1.
    destruct (_validate_provider_scope_inv _ _ _ _ H1) as [-> [[-> _]|[-> _]]];
      [|intros [= <- <-]; split; [set_solver|done]].
    rewrite bind_unfold.
    destruct (_validate_provider_type provider di0) as [r2 di2] eqn:H2.
    destruct (_validate_provider_type_inv _ _ _ _ H2) as [-> [->|[->| ->]]];
      [|intros [= <- <-]; split; [set_solver|done]..].
    rewrite bind_unfold. unfold _validate_provider_match_scopes at 1.
    rewrite bind_unfold.
    destruct (related_providers (parameters provider) di0) as [r3 di3] eqn:H3.
    destruct (related_providers_inv _ _ _ _ H3) as [-> Hrel].
    destruct r3 as [related|e3];
      [|intros [= <- <-]; split; [destruct Hrel as [-> | ->]; set_solver|done]].
    destruct (match_scopes provider related di0) as [r4 di4] eqn:H4.
    destruct (match_scopes_inv _ _ _ _ _ H4) as [-> [[-> _]|[-> _]]];
      [discriminate|].
    intros [= <- <-]. split; [set_solver|done].
Qed.

(** When [register_provider] is called without [override] and returns, the
    provider went through the three validations: its scope is one of the
    three, its type is legal, and every parameter is annotated with an
    interface whose provider has a scope allowed for this one. *)
Lemma register_provider_validated interface o s di provider di' :
  register_provider interface o s false di = (Ok provider, di') ->
  provider = {| obj := o; scope := s |} /\
  result (_validate_provider_scope provider) di = Ok tt /\
  result (_validate_provider_type provider) di = Ok tt /\
  Forall (fun parameter =>
            exists sub_provider,
              _providers di !! annotation parameter = Some sub_provider /\
              scope_allowed (scope sub_provider) s = true)
         (signature o).
Proof.
  unfold register_provider.
  set (p := {| obj := o; scope := s |}).
  rewrite bind_unfold.
  destruct ((if wants_event_type p interface then new_event_type
             else mret interface) di) as [r0 di0] eqn:H0.
  destruct (effective_interface_inv _ _ _ _ _ H0)
    as (interface' & -> & Hprov & Hsame & _).
  rewrite bind_unfold. unfold has_provider at 1. rewrite bind_unfold. simpl.
  case_bool_decide as Hbound; [discriminate|].
  rewrite bind_unfold.
  destruct (_validate_provider_scope p di0) as [r1 di1] eqn:H1.
  destruct (_validate_provider_scope_inv _ _ _ _ H1) as [-> [[-> Hscope]|[-> _]]];
    [|discriminate].
  rewrite bind_unfold.
  destruct (_validate_provider_type p di0) as [r2 di2] eqn:H2.
  destruct (_validate_provider_type_inv _ _ _ _ H2) as [-> [->|[->| ->]]];
    [|discriminate..].
  rewrite bind_unfold. unfold _validate_provider_match_scopes at 1.
  rewrite bind_unfold.
  destruct (related_providers (parameters p) di0) as [r3 di3] eqn:H3.
  destruct (related_providers_inv _ _ _ _ H3) as [-> Hrel].
  destruct r3 as [related|e3]; [|discriminate].
  destruct (match_scopes p related di0) as [r4 di4] eqn:H4.
  destruct (match_scopes_inv _ _ _ _ _ H4) as [-> [[-> Hall]|[-> _]]];
    [|discriminate].
  rewrite bind_unfold. simpl. intros [= <- <-].
  split; [done|]. split.
  { unfold result, _validate_provider_scope. simpl. by rewrite bool_decide_true. }
  split.
  { unfold result. unfold _validate_provider_type in *.
    destruct (is_function p || is_class p); [done|].
    destruct (is_resource p || is_async_resource p); [|done].
    by case_bool_decide. }
  rewrite Hprov in Hrel. unfold parameters in Hrel. simpl in Hrel.
  clear -Hrel Hall. induction Hrel as [|parameter q rest related [_ Hq] _ IH];
    [constructor|].
  inversion Hall; subst. constructor; eauto.
Qed.

Lemma related_providers_bound params di :
  Forall (fun parameter =>
            annotation parameter <> IEmpty /\
            is_Some (_providers di !! annotation parameter)) params ->
  exists related,
    related_providers params di = (Ok related, di) /\
    Forall2 (fun parameter sub_provider =>
               _providers di !! annotation parameter = Some sub_provider)
            params related.
Proof.
  induction 1 as [|parameter rest [Hann [q Hq]] _ (related & Hrel & Hall)]; simpl.
  - by exists [].
  - exists (q :: related). rewrite bool_decide_false by done.
    unfold get_provider. run_monad. rewrite Hq. simpl. rewrite Hrel.
    split; [done|]. by constructor.
Qed.

Lemma match_scopes_mismatch provider related di :
  Exists (fun related_provider =>
            scope_allowed (scope related_provider) (scope provider) = false)
         related ->
  match_scopes provider related di = (Raise ScopeMismatch, di).
Proof.
  induction 1 as [related_provider rest Hbad|related_provider rest _ IH]; simpl.
  - by rewrite Hbad.
  - by destruct (scope_allowed _ _).
Qed.

(** The other direction.  The interface is free, the provider passes the
    checks of its scope and of its type, and every parameter is annotated
    with a bound interface.  If one of them is bound to a provider whose
    scope is not allowed for this one, [register_provider] raises
    [ScopeMismatch]. *)
Lemma register_provider_scope_mismatch interface o s override di :
  wants_event_type {| obj := o; scope := s |} interface = false ->
  _providers di !! interface = None ->
  result (_validate_provider_scope {| obj := o; scope := s |}) di = Ok tt ->
  result (_validate_provider_type {| obj := o; scope := s |}) di = Ok tt ->
  Forall (fun parameter =>
            annotation parameter <> IEmpty /\
            is_Some (_providers di !! annotation parameter)) (signature o) ->
  Exists (fun parameter =>
            exists sub_provider,
              _providers di !! annotation parameter = Some sub_provider /\
              scope_allowed (scope sub_provider) s = false) (signature o) ->
  register_provider interface o s override di = (Raise ScopeMismatch, di).
Proof.
  intros Hevent Hfree Hscope Htype Hbound Hbad.
  unfold register_provider, has_provider. rewrite Hevent. run_monad.
  rewrite Hfree. rewrite bool_decide_false by by intros [? [=]].
  unfold result in Hscope, Htype.
  destruct (_validate_provider_scope _ di) as [r1 di1] eqn:H1.
  destruct (_validate_provider_scope_inv _ _ _ _ H1) as [-> _].
  simpl in Hscope. subst r1.
  destruct (_validate_provider_type _ di) as [r2 di2] eqn:H2.
  destruct (_validate_provider_type_inv _ _ _ _ H2) as [-> _].
  simpl in Htype. subst r2.
  unfold _validate_provider_match_scopes, parameters. run_monad.
  destruct (related_providers_bound _ _ Hbound) as (related & -> & Hrel).
  rewrite match_scopes_mismatch; [done|]. simpl.
  clear -Hrel Hbad. induction Hrel as [|parameter q rest related Hq _ IH].
  - inversion Hbad.
  - inversion Hbad as [? ? (q' & Hq' & Hnot)|? ? Hrest]; subst.
    + apply Exists_cons_hd. congruence.
    + apply Exists_cons_tl. by apply IH.
Qed.

(** On a new container and with the dependencies registered first, the
    chain registers for exactly the scope combinations in which every edge
    is allowed, and fails with [ScopeMismatch] for the others: all 27. *)
Lemma register_chain_27 scope1 scope2 scope3 :
  scope1 ∈ Scope_args -> scope2 ∈ Scope_args -> scope3 ∈ Scope_args ->
  result (register_chain scope1 scope2 scope3) new_PyxDI =
  if scope_allowed scope3 scope2 && scope_allowed scope3 scope1
     && scope_allowed scope2 scope1
  then Ok tt else Raise ScopeMismatch.
Proof.
  unfold Scope_args. rewrite !elem_of_cons, !elem_of_nil.
  intros [->|[->|[->|[]]]] [->|[->|[->|[]]]] [->|[->|[->|[]]]];
    vm_compute; reflexivity.
Qed.

(** C1, at the input on which the code departs from it: [str] is bound
    already, and a singleton provider that depends on the request-scoped
    [int] is registered for it with [override=True].  [request] is not
    allowed for [singleton], yet the call returns and the provider is in the
    registry.  Registered with the same arguments under a free interface it
    fails with [ScopeMismatch]. *)
Theorem register_override_admits_scope_mismatch :
  scope_allowed "request" "singleton" = false /\
  (exists di',
     register_provider (IType "str") takes_int "singleton" true di_str_int
       = (Ok {| obj := takes_int; scope := "singleton" |}, di') /\
     _providers di' !! IType "str"
       = Some {| obj := takes_int; scope := "singleton" |}) /\
  result (register_provider (IType "bytes") takes_int "singleton" true)
    di_str_int = Raise ScopeMismatch.
Proof.
  split; [by vm_compute|]. split; [|by vm_compute].
  eexists. split; [vm_compute; reflexivity|]. by vm_compute.
Qed.

(** C3, at the input on which the code departs from it: [str] is bound, and
    [register_provider] is called for it with [override=True], a scope that
    is none of the three and an object that is not callable.  Each of the
    three validations rejects this provider, yet the call returns and the
    provider is in the registry: on this path the insertion comes first and
    the validations are never run. *)
Theorem register_override_skips_validation :
  let provider := {| obj := not_callable; scope := "invalid" |} in
  result (_validate_provider_scope provider) di_str_int = Raise InvalidScope /\
  result (_validate_provider_type provider) di_str_int
    = Raise InvalidProviderType /\
  result (_validate_provider_match_scopes (IType "str") provider) di_str_int
    = Raise MissingAnnotation /\
  exists di',
    register_provider (IType "str") not_callable "invalid" true di_str_int
      = (Ok provider, di') /\
    _providers di' !! IType "str" = Some provider.
Proof.
  repeat split; try by vm_compute.
  eexists. split; [vm_compute; reflexivity|]. by vm_compute.
Qed.

(** An instance of C7: a second registration of [str] without [override]
    raises [ProviderAlreadyBound] and changes nothing. *)
Lemma register_provider_error_atomic_witness :
  exists di',
    register_provider (IType "str") takes_int "singleton" false di_str_int
      = (Raise ProviderAlreadyBound, di') /\
    ProviderAlreadyBound ∈ registration_errors /\
    _providers di' = _providers di_str_int /\
    same_contexts di_str_int di'.
Proof.
  eexists. split; [vm_compute; reflexivity|].
  eapply (register_provider_error_atomic (IType "str") takes_int "singleton"
            false di_str_int).
  vm_compute. reflexivity.
Defined.

(** * What a resolution does to the container *)

Global Instance resolving_refl : Reflexive resolving.
Proof.
  intros di. split; try done. exists []. split; [by rewrite app_nil_r|].
  intros ref ctx H. exists ctx, [], []. simpl. by rewrite !app_nil_r.
Qed.

Global Instance resolving_trans : Transitive resolving.
Proof.
  intros di1 di2 di3 [Hp1 Hv1 Ho1 (evs1 & Ht1 & Hc1)] [Hp2 Hv2 Ho2 (evs2 & Ht2 & Hc2)].
  split; try congruence.
  exists (evs1 ++ evs2). split; [by rewrite Ht2, Ht1, app_assoc|].
  intros ref ctx H.
  destruct (Hc1 _ _ H) as (ctx1 & p1 & a1 & H1 & Hs1 & Hn1 & Ha1 & Hm1).
  destruct (Hc2 _ _ H1) as (ctx2 & p2 & a2 & H2 & Hs2 & Hn2 & Ha2 & Hm2).
  exists ctx2, (p1 ++ p2), (a1 ++ a2). split; [done|].
  unfold pushes, async_pushes.
  rewrite !omap_app, !map_app, !app_assoc.
  fold (pushes ref evs1) (pushes ref evs2).
  fold (async_pushes ref evs1) (async_pushes ref evs2).
  by rewrite <- Hs1, <- Ha1, Hn1, Hn2, Hm1, Hm2.
Qed.

Lemma context_at_log ref ev di : context_at ref (log ev di) = context_at ref di.
Proof. by destruct ref. Qed.

Lemma context_at_set_counters ref a b c di :
  context_at ref (set_counters a b c di) = context_at ref di.
Proof. by destruct ref. Qed.

Lemma context_at_set_context_at ref ctx di :
  context_at ref (set_context_at ref ctx di) = Some ctx.
Proof. destruct ref; simpl; [done|]. apply lookup_insert_eq. Qed.

Lemma context_at_set_context_at_ne ref ref' ctx di :
  ref' <> ref -> context_at ref' (set_context_at ref ctx di) = context_at ref' di.
Proof.
  intros Hne. destruct ref, ref'; simpl; try done.
  apply lookup_insert_ne. congruence.
Qed.

Lemma preserves_readonly {A} (m : M A) : readonly m -> preserves m.
Proof. intros H di. by rewrite H. Qed.

Lemma preserves_bind {A B} (m : M A) (f : A -> M B) :
  preserves m -> (forall a, preserves (f a)) -> preserves (m ≫= f).
Proof.
  intros Hm Hf di. unfold after. rewrite bind_unfold.
  specialize (Hm di). unfold after in Hm.
  destruct (m di) as [[a|e] di1]; simpl in *; [|done].
  etrans; [done|]. apply Hf.
Qed.

Lemma preserves_log ev :
  match ev with EvCall _ => True | _ => False end -> preserves (modify (log ev)).
Proof.
  intros Hev di. unfold after. simpl. split; try done.
  exists [ev]. split; [done|]. intros ref ctx H. exists ctx, [], [].
  rewrite context_at_log. destruct ev; try done. simpl. by rewrite !app_nil_r.
Qed.

Lemma preserves_new_object : preserves new_object.
Proof.
  intros di. unfold after. simpl. split; try done.
  exists []. split; [by rewrite app_nil_r|]. intros ref ctx H.
  exists ctx, [], [].
  rewrite context_at_set_counters. simpl. by rewrite !app_nil_r.
Qed.

Lemma preserves_call o args kwargs : preserves (call o args kwargs).
Proof.
  unfold call. apply preserves_bind; [by apply preserves_readonly|].
  intros di0. apply preserves_bind; [by apply preserves_log|]. intros _.
  destruct (body o _ _ _); [by apply preserves_readonly|
                            apply preserves_new_object|
                            by apply preserves_readonly].
Qed.

Lemma preserves_set_instances ref f :
  preserves (update_context ref (set_instances f)).
Proof.
  intros di. unfold after, update_context, read_context.
  rewrite !bind_unfold. simpl.
  destruct (context_at ref di) as [ctx|] eqn:Hctx; simpl; [|done].
  split; try by destruct ref.
  exists []. split; [destruct ref; simpl; by rewrite app_nil_r|].
  intros ref' ctx' H. simpl.
  destruct (decide (ref' = ref)) as [->|Hne].
  - rewrite context_at_set_context_at. eexists _, [], []. split; [done|].
    rewrite Hctx in H. inversion H. simpl. by rewrite !app_nil_r.
  - rewrite context_at_set_context_at_ne by done. exists ctx', [], [].
    by rewrite !app_nil_r.
Qed.

Lemma preserves_enter_context ref o args kwargs :
  preserves (enter_context ref o args kwargs).
Proof.
  unfold enter_context. apply preserves_bind; [apply preserves_call|].
  intros instance di. unfold after, update_context, read_context.
  rewrite !bind_unfold. simpl.
  destruct (context_at ref di) as [ctx|] eqn:Hctx; simpl; [|done].
  split; try by destruct ref.
  exists [EvSetup ref (qualname o)].
  split; [by destruct ref|].
  intros ref' ctx' H. rewrite context_at_log. simpl.
  destruct (decide (ref' = ref)) as [->|Hne].
  - rewrite context_at_set_context_at. eexists _, [o], []. split; [done|].
    rewrite Hctx in H. inversion H; subst. simpl.
    rewrite decide_True by done. by rewrite app_nil_r.
  - rewrite context_at_set_context_at_ne by done. exists ctx', [], [].
    rewrite decide_False by done. by rewrite !app_nil_r.
Qed.

Lemma preserves_enter_async_context ref o args kwargs :
  preserves (enter_async_context ref o args kwargs).
Proof.
  unfold enter_async_context. apply preserves_bind; [apply preserves_call|].
  intros instance di. unfold after, update_context, read_context.
  rewrite !bind_unfold. simpl.
  destruct (context_at ref di) as [ctx|] eqn:Hctx; simpl; [|done].
  split; try by destruct ref.
  exists [EvASetup ref (qualname o)].
  split; [by destruct ref|].
  intros ref' ctx' H. rewrite context_at_log. simpl.
  destruct (decide (ref' = ref)) as [->|Hne].
  - rewrite context_at_set_context_at. eexists _, [], [o]. split; [done|].
    rewrite Hctx in H. inversion H; subst. simpl.
    rewrite decide_True by done. by rewrite app_nil_r.
  - rewrite context_at_set_context_at_ne by done. exists ctx', [], [].
    rewrite decide_False by done. by rewrite !app_nil_r.
Qed.

Lemma readonly_read_context ref : readonly (read_context ref).
Proof. unfold read_context. readonly. Qed.

Lemma readonly__validate_instance_is_not_resource provider :
  readonly (_validate_instance_is_not_resource provider).
Proof. unfold _validate_instance_is_not_resource. readonly. Qed.

#[export] Hint Resolve readonly_read_context
  readonly__validate_instance_is_not_resource : readonly.

Section PreservesResolution.

Variable get_instance_rec : Interface -> M Value.
Hypothesis preserves_rec : forall interface, preserves (get_instance_rec interface).

Lemma preserves_provider_arguments params args kwargs :
  preserves (provider_arguments get_instance_rec params args kwargs).
Proof using preserves_rec.
  revert args kwargs. induction params as [|parameter rest IH]; intros; simpl.
  - by apply preserves_readonly.
  - apply preserves_bind; [apply preserves_rec|]. intros instance.
    destruct (positional_only parameter); apply IH.
Qed.

Lemma preserves_create_resource provider ref :
  preserves (create_resource get_instance_rec provider ref).
Proof using preserves_rec.
  unfold create_resource, _get_provider_arguments.
  apply preserves_bind; [apply preserves_provider_arguments|].
  intros [args kwargs]. apply preserves_enter_context.
Qed.

Lemma preserves_create_instance provider :
  preserves (create_instance get_instance_rec provider).
Proof using preserves_rec.
  unfold create_instance, _get_provider_arguments.
  apply preserves_bind; [apply preserves_readonly; readonly|]. intros _.
  destruct (is_coroutine provider); [by apply preserves_readonly|].
  apply preserves_bind; [apply preserves_provider_arguments|].
  intros [args kwargs]. apply preserves_call.
Qed.

Lemma preserves_ScopedContext_get ref interface :
  preserves (ScopedContext_get get_instance_rec ref interface).
Proof using preserves_rec.
  unfold ScopedContext_get.
  apply preserves_bind; [apply preserves_readonly; readonly|]. intros ctx.
  case_bool_decide; [|by apply preserves_readonly].
  apply preserves_bind; [apply preserves_readonly; readonly|]. intros provider.
  apply preserves_bind.
  { destruct (is_resource provider);
      [apply preserves_create_resource|apply preserves_create_instance]. }
  intros instance. apply preserves_bind; [apply preserves_set_instances|].
  intros _. by apply preserves_readonly.
Qed.

Lemma preserves_get_instance_body interface :
  preserves (get_instance_body get_instance_rec interface).
Proof using preserves_rec.
  unfold get_instance_body.
  apply preserves_bind; [by apply preserves_readonly|]. intros di0.
  destruct (_override_instances di0 !! interface);
    [by apply preserves_readonly|].
  apply preserves_bind; [apply preserves_readonly; readonly|]. intros provider.
  apply preserves_bind; [apply preserves_readonly; readonly|].
  intros [ref|]; [apply preserves_ScopedContext_get|
                  apply preserves_create_instance].
Qed.

End PreservesResolution.

Lemma preserves_get_instance fuel interface : preserves (get_instance fuel interface).
Proof.
  revert interface. induction fuel as [|fuel IH]; intros interface; simpl.
  - by apply preserves_readonly.
  - by apply preserves_get_instance_body.
Qed.

Section PreservesAsyncResolution.

Variable get_instance_rec aget_instance_rec : Interface -> M Value.
Hypothesis preserves_rec : forall interface, preserves (get_instance_rec interface).
Hypothesis preserves_arec : forall interface, preserves (aget_instance_rec interface).

Lemma preserves_acreate_resource provider ref :
  preserves (acreate_resource aget_instance_rec provider ref).
Proof using preserves_arec.
  unfold acreate_resource, _aget_provider_arguments.
  apply preserves_bind; [by apply preserves_provider_arguments|].
  intros [args kwargs]. apply preserves_enter_async_context.
Qed.

Lemma preserves_acreate_instance provider :
  preserves (acreate_instance aget_instance_rec provider).
Proof using preserves_arec.
  unfold acreate_instance, _aget_provider_arguments.
  apply preserves_bind; [apply preserves_readonly; readonly|]. intros _.
  apply preserves_bind; [by apply preserves_provider_arguments|].
  intros [args kwargs]. destruct (is_coroutine provider); apply preserves_call.
Qed.

Lemma preserves_ScopedContext_aget ref interface :
  preserves (ScopedContext_aget get_instance_rec aget_instance_rec ref interface).
Proof using preserves_rec preserves_arec.
  unfold ScopedContext_aget.
  apply preserves_bind; [apply preserves_readonly; readonly|]. intros ctx.
  case_bool_decide; [|by apply preserves_readonly].
  apply preserves_bind; [apply preserves_readonly; readonly|]. intros provider.
  apply preserves_bind.
  { destruct (is_resource provider); [by apply preserves_create_resource|].
    destruct (is_async_resource provider);
      [apply preserves_acreate_resource|apply preserves_acreate_instance]. }
  intros instance. apply preserves_bind; [apply preserves_set_instances|].
  intros _. by apply preserves_readonly.
Qed.

Lemma preserves_aget_instance_body interface :
  preserves (aget_instance_body get_instance_rec aget_instance_rec interface).
Proof using preserves_rec preserves_arec.
  unfold aget_instance_body.
  apply preserves_bind; [by apply preserves_readonly|]. intros di0.
  destruct (_override_instances di0 !! interface);
    [by apply preserves_readonly|].
  apply preserves_bind; [apply preserves_readonly; readonly|]. intros provider.
  apply preserves_bind; [apply preserves_readonly; readonly|].
  intros [ref|]; [apply preserves_ScopedContext_aget|
                  apply preserves_acreate_instance].
Qed.

End PreservesAsyncResolution.

Lemma preserves_aget_instance fuel interface : preserves (aget_instance fuel interface).
Proof.
  revert interface. induction fuel as [|fuel IH]; intros interface; simpl.
  - by apply preserves_readonly.
  - apply preserves_aget_instance_body; [apply preserves_get_instance|done].
Qed.

(** * Closing a context *)

Lemma drain_pending callbacks history done e :
  drain (length callbacks) callbacks history done (Some e) = ([], done, Some e).
Proof.
  induction callbacks as [|callback rest IH] using rev_ind; simpl; [done|].
  rewrite length_app, Nat.add_comm. simpl.
  by rewrite last_snoc, removelast_last.
Qed.

(** What [drain] does to a whole stack: it runs the teardowns [ran], from
    the last callback on, and skips the others; it skips some only when the
    last teardown it ran raised. *)
Lemma drain_spec callbacks history done :
  exists ran skipped pending,
    drain (length callbacks) callbacks history done None
      = ([], done ++ map teardown_of ran, pending) /\
    rev callbacks = ran ++ skipped /\
    (pending = None -> skipped = []) /\
    (Forall teardown_completes callbacks -> pending = None) /\
    (forall e, pending = Some e ->
       exists o, last ran = Some o /\ e = UserError (qualname o) /\
         teardown_raises o (history ++ done ++ map teardown_of (removelast ran))
           = true).
Proof.
  revert done. induction callbacks as [|callback rest IH] using rev_ind;
    intros done.
  - exists [], [], None. simpl. by rewrite app_nil_r.
  - rewrite length_app, Nat.add_comm. simpl.
    rewrite last_snoc, removelast_last, rev_unit.
    destruct (teardown_raises callback (history ++ done)) eqn:Hraises.
    + rewrite drain_pending.
      exists [callback], (rev rest), (Some (UserError (qualname callback))).
      split; [done|]. split; [done|]. split; [done|]. split.
      * intros Hall. apply Forall_app in Hall as [_ Hlast].
        rewrite Forall_singleton in Hlast.
        by rewrite (Hlast (history ++ done)) in Hraises.
      * intros e [= <-]. exists callback. simpl. by rewrite app_nil_r.
    + destruct (IH (done ++ [EvTeardown (qualname callback)]))
        as (ran & skipped & pending & Hdrain & Hrev & Hnone & Hquiet & Hsome).
      exists (callback :: ran), skipped, pending. rewrite Hdrain.
      split; [by rewrite <- app_assoc|]. split; [simpl; by rewrite Hrev|].
      split; [done|]. split.
      * intros Hall. apply Hquiet. by apply Forall_app in Hall as [? _].
      * intros e He. destruct (Hsome e He) as (o & Hlast & -> & Hraised).
        exists o. destruct ran as [|o' ran]; [done|].
        split; [done|]. split; [done|].
        rewrite <- Hraised. by rewrite <- !app_assoc.
Qed.

Lemma trace_fold_log evs di :
  trace (fold_left (fun di ev => log ev di) evs di) = trace di ++ evs.
Proof.
  revert di. induction evs as [|ev evs IH]; intros di; simpl.
  - by rewrite app_nil_r.
  - rewrite IH. simpl. by rewrite <- app_assoc.
Qed.

Lemma context_at_fold_log ref evs di :
  context_at ref (fold_left (fun di ev => log ev di) evs di) = context_at ref di.
Proof.
  revert di. induction evs as [|ev evs IH]; intros di; simpl; [done|].
  by rewrite IH, context_at_log.
Qed.

(** [close] in one equation: the container afterwards is the one before
    with the teardowns that were run in its trace and an empty exit stack,
    whether [close] returns or raises. *)
Lemma ScopedContext_close_eq ref ctx di :
  context_at ref di = Some ctx ->
  exists ran skipped pending,
    ScopedContext_close ref di
      = (match pending with Some e => Raise e | None => Ok tt end,
         set_context_at ref (set_stack (fun _ => []) ctx)
           (fold_left (fun di ev => log ev di) (map teardown_of ran) di)) /\
    rev (_stack ctx) = ran ++ skipped /\
    (pending = None -> skipped = []) /\
    (Forall teardown_completes (_stack ctx) -> pending = None) /\
    (forall e, pending = Some e ->
       exists o, last ran = Some o /\ e = UserError (qualname o) /\
         teardown_raises o (trace di ++ map teardown_of (removelast ran)) = true).
Proof.
  intros Hctx.
  destruct (drain_spec (_stack ctx) (trace di) [])
    as (ran & skipped & pending & Hdrain & Hrev & Hnone & Hquiet & Hsome).
  simpl in Hdrain, Hsome.
  exists ran, skipped, pending. split; [|done].
  unfold ScopedContext_close, read_context. run_monad.
  rewrite Hctx. simpl. rewrite Hdrain. simpl.
  unfold update_context, read_context. run_monad.
  rewrite context_at_fold_log, Hctx. simpl. by destruct pending.
Qed.

(** Closing a context runs teardowns from the last exit pushed on, leaves
    the stack empty and touches nothing else.  It runs all of them and
    returns, unless one of them raises: then that one is the last it runs,
    and [close] raises what it raised. *)
Lemma ScopedContext_close_spec ref ctx di :
  context_at ref di = Some ctx ->
  exists ran skipped,
    rev (_stack ctx) = ran ++ skipped /\
    trace (after (ScopedContext_close ref) di)
      = trace di ++ map teardown_of ran /\
    context_at ref (after (ScopedContext_close ref) di)
      = Some (set_stack (fun _ => []) ctx) /\
    (result (ScopedContext_close ref) di = Ok tt -> skipped = []) /\
    (Forall teardown_completes (_stack ctx) ->
       result (ScopedContext_close ref) di = Ok tt) /\
    (forall e, result (ScopedContext_close ref) di = Raise e ->
       exists o, last ran = Some o /\ e = UserError (qualname o) /\
         teardown_raises o (trace di ++ map teardown_of (removelast ran)) = true).
Proof.
  intros Hctx.
  destruct (ScopedContext_close_eq _ _ _ Hctx)
    as (ran & skipped & pending & Hclose & Hrev & Hnone & Hquiet & Hsome).
  exists ran, skipped. unfold after, result. rewrite Hclose. simpl.
  split; [done|]. split; [destruct ref; simpl; by rewrite trace_fold_log|].
  split; [by rewrite context_at_set_context_at|].
  split; [destruct pending; [done|auto]|].
  split; [intros Hall; by rewrite (Hquiet Hall)|].
  intros e He. apply Hsome. by destruct pending; inversion He.
Qed.

(** When [close] returns, every teardown was run. *)
Lemma ScopedContext_close_Ok ref ctx di di' :
  context_at ref di = Some ctx ->
  ScopedContext_close ref di = (Ok tt, di') ->
  di' = set_context_at ref (set_stack (fun _ => []) ctx)
          (fold_left (fun di ev => log ev di)
             (map teardown_of (rev (_stack ctx))) di).
Proof.
  intros Hctx Hok.
  destruct (ScopedContext_close_eq _ _ _ Hctx)
    as (ran & skipped & pending & Hclose & Hrev & Hnone & _).
  rewrite Hclose in Hok. destruct pending; [done|].
  rewrite (Hnone eq_refl), app_nil_r in Hrev. rewrite Hrev.
  by inversion Hok.
Qed.

(** When no teardown raises, [close] returns. *)
Lemma ScopedContext_close_quiet ref ctx di :
  context_at ref di = Some ctx ->
  Forall teardown_completes (_stack ctx) ->
  ScopedContext_close ref di
  = (Ok tt,
     set_context_at ref (set_stack (fun _ => []) ctx)
       (fold_left (fun di ev => log ev di)
          (map teardown_of (rev (_stack ctx))) di)).
Proof.
  intros Hctx Hall.
  destruct (ScopedContext_close_eq _ _ _ Hctx)
    as (ran & skipped & pending & Hclose & Hrev & Hnone & Hquiet & _).
  specialize (Hquiet Hall). subst pending.
  by rewrite Hclose, Hrev, (Hnone eq_refl), app_nil_r.
Qed.

(** * The instance cache *)

Section Cache.

Variable get_instance_rec : Interface -> M Value.

(** An instance other than [None] in the cache is returned as it is. *)
Lemma ScopedContext_get_hit ref interface di ctx instance :
  context_at ref di = Some ctx ->
  _instances ctx !! interface = Some instance ->
  instance <> VNone ->
  ScopedContext_get get_instance_rec ref interface di = (Ok instance, di).
Proof.
  intros Hctx Hinst Hnone. unfold ScopedContext_get, read_context.
  run_monad. rewrite Hctx. simpl. rewrite Hinst. simpl.
  by rewrite bool_decide_false.
Qed.

(** What [ScopedContext.get] returns is in the cache afterwards. *)
Lemma ScopedContext_get_stores ref interface di instance di' :
  ScopedContext_get get_instance_rec ref interface di = (Ok instance, di') ->
  exists ctx', context_at ref di' = Some ctx' /\
    _instances ctx' !! interface = Some instance.
Proof.
  unfold ScopedContext_get, read_context, get_provider. run_monad.
  destruct (context_at ref di) as [ctx|] eqn:Hctx; simpl; [|discriminate].
  case_bool_decide as Hmiss.
  - destruct (_providers di !! interface) as [provider|]; simpl; [|discriminate].
    destruct ((if is_resource provider
               then create_resource get_instance_rec provider ref
               else create_instance get_instance_rec provider) di)
      as [[v|e] di1]; [|discriminate].
    unfold update_context, read_context. run_monad.
    destruct (context_at ref di1) as [ctx1|] eqn:Hctx1; simpl; [|discriminate].
    intros [= <- <-]. eexists. split; [apply context_at_set_context_at|].
    simpl. apply lookup_insert_eq.
  - intros [= <- <-]. exists ctx. split; [done|].
    destruct (_instances ctx !! interface); simpl in *; congruence.
Qed.

End Cache.

Section AsyncCache.

Variable get_instance_rec aget_instance_rec : Interface -> M Value.

Lemma ScopedContext_aget_hit ref interface di ctx instance :
  context_at ref di = Some ctx ->
  _instances ctx !! interface = Some instance ->
  instance <> VNone ->
  ScopedContext_aget get_instance_rec aget_instance_rec ref interface di
    = (Ok instance, di).
Proof.
  intros Hctx Hinst Hnone. unfold ScopedContext_aget, read_context.
  run_monad. rewrite Hctx. simpl. rewrite Hinst. simpl.
  by rewrite bool_decide_false.
Qed.

End AsyncCache.

(** The owning context of a scope, when there is one. *)
Lemma _get_scoped_context_inv scope di r di' :
  _get_scoped_context scope di = (r, di') ->
  di' = di /\
  (scope = "singleton" /\ r = Ok (Some Singleton) \/
   scope = "request" /\
     ((exists id, _request_context_var di = Some id /\ r = Ok (Some (Request id))) \/
      _request_context_var di = None /\ r = Raise ContextNotStarted) \/
   scope <> "singleton" /\ scope <> "request" /\ r = Ok None).
Proof.
  unfold _get_scoped_context, _get_request_context.
  case_bool_decide as Hs; [intros [= <- <-]; auto|].
  case_bool_decide as Hr; [|intros [= <- <-]; split; [done|]; by do 2 right].
  run_monad. destruct (_request_context_var di) as [id|]; simpl;
    intros [= <- <-]; (split; [done|]); right; left; (split; [done|]);
    [left; by exists id|by right].
Qed.

(** The owning context depends on the request handle only. *)
Lemma _get_scoped_context_frame scope di di' r :
  _request_context_var di' = _request_context_var di ->
  _get_scoped_context scope di = (r, di) ->
  _get_scoped_context scope di' = (r, di').
Proof.
  intros Hvar. unfold _get_scoped_context, _get_request_context.
  case_bool_decide; [by intros [= <-]|].
  case_bool_decide; [|by intros [= <-]].
  run_monad. rewrite Hvar.
  destruct (_request_context_var di); simpl; by intros [= <-].
Qed.

(** A resolution that finds an instance other than [None] in the cache of
    the owning context returns it and does nothing else. *)
Lemma get_instance_hit fuel interface di provider ref ctx instance :
  _override_instances di !! interface = None ->
  _providers di !! interface = Some provider ->
  _get_scoped_context (scope provider) di = (Ok (Some ref), di) ->
  context_at ref di = Some ctx ->
  _instances ctx !! interface = Some instance ->
  instance <> VNone ->
  get_instance (S fuel) interface di = (Ok instance, di).
Proof.
  intros Hover Hprov Hscope Hctx Hinst Hnone. simpl.
  unfold get_instance_body, get_provider. run_monad.
  rewrite Hover, Hprov. simpl. rewrite Hscope.
  by apply ScopedContext_get_hit with ctx.
Qed.

(** Singleton identity for objects: when the resolution of a singleton
    interface returns an object, the next resolution returns the same object
    and runs no provider. *)
Lemma singleton_object_identity fuel fuel' interface di provider instance di' :
  _providers di !! interface = Some provider ->
  scope provider = "singleton" ->
  get_instance fuel interface di = (Ok instance, di') ->
  instance <> VNone ->
  get_instance (S fuel') interface di' = (Ok instance, di').
Proof.
  intros Hprov Hscope Hget Hnone.
  pose proof (preserves_get_instance fuel interface di) as Hres.
  unfold after in Hres. rewrite Hget in Hres. simpl in Hres.
  destruct Hres as [Hp Hv Ho _].
  destruct fuel as [|fuel]; [discriminate|]. simpl in Hget.
  unfold get_instance_body, get_provider in Hget. revert Hget. run_monad.
  destruct (_override_instances di !! interface) as [v|] eqn:Hover.
  - intros [= <- <-]. unfold get_instance_body. run_monad. by rewrite Hover.
  - rewrite Hprov. simpl. rewrite Hscope. simpl. intros Hget.
    destruct (ScopedContext_get_stores _ _ _ _ _ _ Hget) as (ctx' & Hctx' & Hinst).
    apply get_instance_hit with provider Singleton ctx'; try congruence.
    by rewrite Hscope.
Qed.

(** C5, at the input on which the code departs from it: a singleton
    provider that returns [None] on its first call.  The first resolution
    stores [None] and returns it; the second one takes the stored [None] for
    a miss, calls the provider again and returns the object it makes now.
    The two results differ. *)
Theorem singleton_resolved_twice_differs :
  exists di1 di2,
    get_instance 1 (IType "Service") di_late = (Ok VNone, di1) /\
    _instances (_singleton_context di1) !! IType "Service" = Some VNone /\
    get_instance 1 (IType "Service") di1 = (Ok (VObj 0), di2) /\
    trace di2 = [EvCall "late"; EvCall "late"].
Proof.
  do 2 eexists. split; [vm_compute; reflexivity|].
  split; [by vm_compute|]. split; [vm_compute; reflexivity|]. by vm_compute.
Qed.

(** * Re-registration and the cache *)

Lemma register_provider_override interface o s di old :
  _providers di !! interface = Some old ->
  wants_event_type {| obj := o; scope := s |} interface = false ->
  register_provider interface o s true di
  = (Ok {| obj := o; scope := s |},
     set_providers <[interface := {| obj := o; scope := s |}]> di).
Proof.
  intros Hold Hevent. unfold register_provider, has_provider.
  rewrite Hevent. run_monad. rewrite Hold.
  by rewrite bool_decide_true.
Qed.

Lemma unregister_provider_evicts interface di old ref ctx :
  _providers di !! interface = Some old ->
  _get_scoped_context (scope old) di = (Ok (Some ref), di) ->
  context_at ref di = Some ctx ->
  exists di',
    unregister_provider interface di = (Ok tt, di') /\
    _providers di' = delete interface (_providers di) /\
    context_at ref di' = Some (set_instances (delete interface) ctx).
Proof.
  intros Hold Hscope Hctx.
  unfold unregister_provider, has_provider, get_provider. run_monad.
  rewrite Hold. rewrite bool_decide_true by done. simpl.
  rewrite Hold. simpl. rewrite Hscope.
  unfold ScopedContext_delete, update_context, read_context. run_monad.
  rewrite Hctx. simpl. eexists. split; [done|]. split; [by destruct ref|].
  destruct ref; simpl; [done|]. apply lookup_insert_eq.
Qed.

(** C9, as amended.  [interface] is bound to a provider [old], and the
    scoped context that owns its scope holds an instance for it that is not
    [None].  A second registration with [override=True], for a provider [o]
    of the same scope, replaces the entry of the registry and changes nothing
    else: the contexts and their caches are as before.  So the next
    resolution, when no override block is active for the interface, returns
    the instance of the old provider and does not run the new one (the
    container is unchanged by it).  [unregister_provider] on the contrary
    removes the instance from the cache.  The call is not one that files the
    provider under a new [Event] type.  Without the two conditions the
    statement fails, as the lemma after the next one shows. *)
Theorem override_registration_keeps_cached_instance
    fuel interface o s di old ref ctx instance :
  _providers di !! interface = Some old ->
  scope old = s ->
  wants_event_type {| obj := o; scope := s |} interface = false ->
  _override_instances di !! interface = None ->
  _get_scoped_context s di = (Ok (Some ref), di) ->
  context_at ref di = Some ctx ->
  _instances ctx !! interface = Some instance ->
  instance <> VNone ->
  exists di',
    register_provider interface o s true di = (Ok {| obj := o; scope := s |}, di') /\
    _providers di' = <[interface := {| obj := o; scope := s |}]> (_providers di) /\
    same_contexts di di' /\
    context_at ref di' = Some ctx /\
    get_instance (S fuel) interface di' = (Ok instance, di') /\
    exists di'' ctx'',
      unregister_provider interface di = (Ok tt, di'') /\
      context_at ref di'' = Some ctx'' /\
      _instances ctx'' !! interface = None.
Proof.
  intros Hold Hsame Hevent Hover Hscope Hctx Hinst Hnone.
  eexists. split; [by eapply register_provider_override|].
  split; [done|]. split; [done|].
  assert (Hctx' : context_at ref
            (set_providers <[interface := {| obj := o; scope := s |}]> di)
          = Some ctx) by by destruct ref.
  split; [done|]. split.
  - eapply get_instance_hit; try done.
    + simpl. apply lookup_insert_eq.
    + simpl. by apply _get_scoped_context_frame with di.
  - subst s.
    destruct (unregister_provider_evicts _ _ _ _ _ Hold Hscope Hctx)
      as (di'' & Hun & _ & Hctx'').
    exists di''. eexists. split; [done|]. split; [done|].
    simpl. apply lookup_delete_eq.
Qed.

Lemma override_registration_keeps_cached_instance_witness :
  exists di',
    register_provider (IType "str") (plain "other" []) "singleton" true di_resolved
      = (Ok {| obj := plain "other" []; scope := "singleton" |}, di') /\
    _providers di'
      = <[IType "str" := {| obj := plain "other" []; scope := "singleton" |}]>
          (_providers di_resolved) /\
    same_contexts di_resolved di' /\
    context_at Singleton di' = Some (_singleton_context di_resolved) /\
    get_instance 1 (IType "str") di' = (Ok (VObj 0), di') /\
    exists di'' ctx'',
      unregister_provider (IType "str") di_resolved = (Ok tt, di'') /\
      context_at Singleton di'' = Some ctx'' /\
      _instances ctx'' !! IType "str" = None.
Proof.
  apply (override_registration_keeps_cached_instance 0 (IType "str")
           (plain "other" []) "singleton" di_resolved
           {| obj := plain "f" []; scope := "singleton" |}
           Singleton (_singleton_context di_resolved) (VObj 0));
    try (vm_compute; reflexivity).
  discriminate.
Defined.

(** The claim C9 without its two conditions.  Inside an [override] block for
    [str], whose singleton context holds the object that the old provider
    made, the resolution that follows the second registration returns the
    overriding instance.  And where the old provider returned [None], which
    the cache holds but the lookup takes for a miss, the resolution that
    follows the second registration runs the new provider and returns its
    object. *)
Lemma override_registration_counterexample :
  (_instances (_singleton_context di_resolved) !! IType "str" = Some (VObj 0) /\
   result (override (IType "str") other
             (register_other;; get_instance 1 (IType "str"))) di_resolved
   = Ok other /\
   other <> VObj 0) /\
  (let di := after (get_instance 1 (IType "Service")) di_nothing in
   _instances (_singleton_context di) !! IType "Service" = Some VNone /\
   result (register_other_Service;; get_instance 1 (IType "Service")) di
   = Ok (VObj 0) /\
   trace (after (register_other_Service;; get_instance 1 (IType "Service")) di)
   = [EvCall "nothing"; EvCall "other"]).
Proof.
  split; [split; [by vm_compute|split; [by vm_compute|discriminate]]|].
  split; [by vm_compute|]. split; by vm_compute.
Qed.

(** * Providers that return [None] *)

Lemma calls_app name history evs :
  calls name (history ++ evs) = calls name history + calls name evs.
Proof. unfold calls. by rewrite filter_app, length_app. Qed.

Lemma calls_EvCall name : calls name [EvCall name] = 1.
Proof. unfold calls. by rewrite filter_cons_True. Qed.

Lemma preserves_run {A} (m : M A) di r di' :
  preserves m -> m di = (r, di') -> resolving di di'.
Proof. intros H E. specialize (H di). unfold after in H. by rewrite E in H. Qed.

Lemma call_invoked o args kwargs di v di' :
  call o args kwargs di = (Ok v, di') ->
  trace di' = trace di ++ [EvCall (qualname o)] /\
  (body o (trace di) args kwargs = Returns v \/
   body o (trace di) args kwargs = New /\ v <> VNone).
Proof.
  unfold call, new_object. run_monad.
  destruct (body o (trace di) args kwargs); simpl; intros [= <- <-]; auto.
Qed.

Lemma invoked_after_arguments o v di di1 di' args kwargs later :
  resolving di di1 ->
  trace di' = trace di1 ++ [EvCall (qualname o)] ++ later ->
  (body o (trace di1) args kwargs = Returns v \/
   body o (trace di1) args kwargs = New /\ v <> VNone) ->
  invoked o v di di'.
Proof.
  intros [_ _ _ (before & Hbefore & _)] Htrace Hbody.
  exists before, args, kwargs, later. rewrite <- Hbefore.
  split; [|done]. by rewrite Htrace, Hbefore, <- !app_assoc.
Qed.

Lemma enter_context_invoked ref o args kwargs di v di' :
  enter_context ref o args kwargs di = (Ok v, di') ->
  trace di' = trace di ++ [EvCall (qualname o)] ++ [EvSetup ref (qualname o)] /\
  (body o (trace di) args kwargs = Returns v \/
   body o (trace di) args kwargs = New /\ v <> VNone).
Proof.
  unfold enter_context. intros H.
  apply bind_inv in H as [(instance & di1 & Hcall & H)|(e & _ & [=])].
  apply call_invoked in Hcall as [Htrace Hbody].
  revert H. unfold update_context, read_context. run_monad.
  destruct (context_at ref di1); simpl; intros [= <- <-].
  split; [|done]. destruct ref; simpl; by rewrite Htrace, <- app_assoc.
Qed.


Section Invoked.

Variable get_instance_rec : Interface -> M Value.
Hypothesis preserves_rec : forall interface, preserves (get_instance_rec interface).

Lemma create_instance_invoked provider di v di' :
  create_instance get_instance_rec provider di = (Ok v, di') ->
  invoked (obj provider) v di di'.
Proof using preserves_rec.
  unfold create_instance, _get_provider_arguments. intros H.
  apply bind_inv in H as [([] & di0 & Hvalid & H)|(e & _ & [=])].
  apply readonly_eq in Hvalid as ->; [|readonly].
  destruct (is_coroutine provider); [discriminate|].
  apply bind_inv in H as [([args kwargs] & di1 & Hargs & H)|(e & _ & [=])].
  apply preserves_run in Hargs; [|by apply preserves_provider_arguments].
  apply call_invoked in H as [Htrace Hbody].
  eapply invoked_after_arguments with (later := []); [done| |done].
  by rewrite Htrace.
Qed.

Lemma create_resource_invoked provider ref di v di' :
  create_resource get_instance_rec provider ref di = (Ok v, di') ->
  invoked (obj provider) v di di'.
Proof using preserves_rec.
  unfold create_resource, _get_provider_arguments. intros H.
  apply bind_inv in H as [([args kwargs] & di1 & Hargs & H)|(e & _ & [=])].
  apply preserves_run in Hargs; [|by apply preserves_provider_arguments].
  apply enter_context_invoked in H as [Htrace Hbody].
  by eapply invoked_after_arguments.
Qed.



End Invoked.


(** Storing the instance that was made: the last step of [ScopedContext.get]
    and [ScopedContext.aget]. *)
Lemma store_instance_inv ref interface instance di r di' :
  update_context ref (set_instances <[interface := instance]>) di = (r, di') ->
  r = Ok tt ->
  trace di' = trace di /\ _providers di' = _providers di /\
  exists ctx', context_at ref di' = Some ctx' /\
    _instances ctx' !! interface = Some instance.
Proof.
  unfold update_context, read_context. run_monad.
  destruct (context_at ref di) as [ctx|]; simpl; intros [= <- <-]; [|done].
  intros _. split; [by destruct ref|]. split; [by destruct ref|].
  eexists. split; [apply context_at_set_context_at|]. apply lookup_insert_eq.
Qed.


Lemma update_context_eq ref g di ctx :
  context_at ref di = Some ctx ->
  update_context ref g di = (Ok tt, set_context_at ref (g ctx) di).
Proof.
  intros Hctx. unfold update_context, read_context. run_monad. by rewrite Hctx.
Qed.








(** Three resolutions in one context, three calls of the provider, through
    [get_instance] and through [aget_instance]. *)
Example nothing_called_every_time :
  trace (after (get_instance 1 (IType "Service");;
                get_instance 1 (IType "Service");;
                get_instance 1 (IType "Service")) di_nothing)
  = [EvCall "nothing"; EvCall "nothing"; EvCall "nothing"] /\
  trace (after (aget_instance 1 (IType "Service");;
                aget_instance 1 (IType "Service");;
                aget_instance 1 (IType "Service")) di_nothing)
  = [EvCall "nothing"; EvCall "nothing"; EvCall "nothing"].
Proof. split; by vm_compute. Qed.


(** * Teardown order *)

Lemma resolving_resolve_all fuel resolutions di :
  resolving di (resolve_all fuel resolutions di).
Proof.
  revert di. induction resolutions as [|[interface|interface] rest IH];
    intros di; simpl; [done|..].
  - etrans; [apply preserves_get_instance|apply IH].
  - etrans; [apply preserves_aget_instance|apply IH].
Qed.

(** Entering a generator pushes it on the exit stack of the context. *)
Lemma enter_context_pushes ref o args kwargs di ctx v di' :
  context_at ref di = Some ctx ->
  enter_context ref o args kwargs di = (Ok v, di') ->
  context_at ref di' = Some (set_stack (fun stack => stack ++ [o]) ctx).
Proof.
  intros Hctx. unfold enter_context. intros H.
  apply bind_inv in H as [(instance & di1 & Hcall & H)|(e & _ & [=])].
  assert (context_at ref di1 = Some ctx) as Hctx1.
  { revert Hcall. unfold call, new_object. run_monad.
    destruct (body o (trace di) args kwargs); simpl; intros [= <- <-];
      by rewrite ?context_at_set_counters, context_at_log. }
  revert H. unfold update_context, read_context. run_monad.
  rewrite Hctx1. simpl. intros [= <- <-].
  by rewrite context_at_log, context_at_set_context_at.
Qed.

(** The resolution of a generator provider that finds nothing in the cache
    of the owning context, when it returns, has pushed the generator on the
    exit stack of that context, after the generators that the resolution of
    its arguments pushed there. *)
Lemma get_instance_pushes fuel ref interface di provider ctx instance di' :
  _providers di !! interface = Some provider ->
  is_resource provider = true ->
  _get_scoped_context (scope provider) di = (Ok (Some ref), di) ->
  _override_instances di !! interface = None ->
  context_at ref di = Some ctx ->
  default VNone (_instances ctx !! interface) = VNone ->
  get_instance fuel interface di = (Ok instance, di') ->
  exists ctx' before,
    context_at ref di' = Some ctx' /\
    _stack ctx' = _stack ctx ++ before ++ [obj provider].
Proof.
  intros Hprov Hres Hscope Hover Hctx Hmiss Hget.
  destruct fuel as [|fuel]; [discriminate|]. simpl in Hget.
  unfold get_instance_body, get_provider in Hget. revert Hget. run_monad.
  rewrite Hover, Hprov. simpl. rewrite Hscope.
  unfold ScopedContext_get, read_context, get_provider. run_monad.
  rewrite Hctx. simpl. rewrite Hmiss. rewrite bool_decide_true by done.
  rewrite Hprov. simpl. rewrite Hres. intros H.
  apply bind_inv in H as [(v & di2 & Hcreate & H)|(e & _ & [=])].
  unfold create_resource, _get_provider_arguments in Hcreate.
  apply bind_inv in Hcreate
    as [([args kwargs] & di1 & Hargs & Henter)|(e & _ & [=])].
  apply preserves_run in Hargs;
    [|apply preserves_provider_arguments, preserves_get_instance].
  destruct Hargs as [_ _ _ (evs & _ & Hstacks)].
  destruct (Hstacks _ _ Hctx) as (ctx1 & before & _ & Hctx1 & Hstack1 & _).
  pose proof (enter_context_pushes _ _ _ _ _ _ _ _ Hctx1 Henter) as Hctx2.
  revert H. unfold update_context, read_context. run_monad.
  rewrite Hctx2. simpl. intros [= <- <-].
  eexists _, before. split; [apply context_at_set_context_at|].
  simpl. by rewrite Hstack1, <- app_assoc.
Qed.

Lemma resolved_in_turn_pushes fuel ref di resources di1 ctx :
  context_at ref di = Some ctx ->
  resolved_in_turn fuel ref di resources di1 ->
  exists ctx1 pushed,
    context_at ref di1 = Some ctx1 /\
    _stack ctx1 = _stack ctx ++ pushed /\
    sublist (map (fun resource => obj resource.2) resources) pushed.
Proof.
  intros Hctx Hturn. revert ctx Hctx.
  induction Hturn
    as [di|di interface provider ctx0 instance di1 rest di'
          Hprov Hres Hscope Hover Hctx0 Hmiss Hget Hturn IH];
    intros ctx Hctx.
  - exists ctx, []. by rewrite app_nil_r.
  - rewrite Hctx0 in Hctx. injection Hctx as ->.
    destruct (get_instance_pushes _ _ _ _ _ _ _ _
                Hprov Hres Hscope Hover Hctx0 Hmiss Hget)
      as (ctx1 & before & Hctx1 & Hstack1).
    destruct (IH _ Hctx1) as (ctx2 & pushed & Hctx2 & Hstack2 & Hsub).
    exists ctx2, (before ++ [obj provider] ++ pushed). split; [done|].
    split; [by rewrite Hstack2, Hstack1, <- !app_assoc|].
    simpl. apply sublist_inserts_l. by apply sublist_skip.
Qed.

Lemma enter_context_total ref o args kwargs di ctx :
  context_at ref di = Some ctx ->
  setup_completes o ->
  exists v di', enter_context ref o args kwargs di = (Ok v, di').
Proof.
  intros Hctx Hsetup. unfold enter_context, call, new_object, update_context,
    read_context.
  run_monad. specialize (Hsetup (trace di) args kwargs).
  destruct (body o (trace di) args kwargs); simpl; [| |done];
    rewrite ?context_at_set_counters, context_at_log, Hctx; simpl; eauto.
Qed.

(** The resolution of a generator without parameters whose setup does not
    raise, on a miss: it returns, and the cache of the context is the one
    before with what it returns under the interface. *)
Lemma get_instance_resource_returns fuel ref di resource ctx :
  ready ref di resource ->
  context_at ref di = Some ctx ->
  default VNone (_instances ctx !! resource.1) = VNone ->
  exists v di1 ctx1,
    get_instance (S fuel) resource.1 di = (Ok v, di1) /\
    context_at ref di1 = Some ctx1 /\
    _instances ctx1 = <[resource.1 := v]> (_instances ctx).
Proof.
  destruct resource as [interface provider]. simpl.
  intros (Hprov & Hres & Hparams & Hsetup & Hscope & Hover) Hctx Hmiss. simpl in *.
  destruct (enter_context_total ref (obj provider) [] ∅ di ctx Hctx Hsetup)
    as (v & di1 & Henter).
  pose proof (enter_context_pushes _ _ _ _ _ _ _ _ Hctx Henter) as Hctx1.
  exists v. eexists. eexists. split; [|split].
  - unfold get_instance_body, get_provider. run_monad.
    rewrite Hover, Hprov. simpl. rewrite Hscope.
    unfold ScopedContext_get, read_context, get_provider. run_monad.
    rewrite Hctx. simpl. rewrite Hmiss. rewrite bool_decide_true by done.
    rewrite Hprov. simpl. rewrite Hres.
    unfold create_resource, _get_provider_arguments. rewrite Hparams.
    run_monad. rewrite Henter. simpl.
    rewrite (update_context_eq _ _ _ _ Hctx1). simpl. reflexivity.
  - apply context_at_set_context_at.
  - reflexivity.
Qed.

(** Generators without parameters whose setups do not raise, bound to
    distinct interfaces that have nothing in the cache, do resolve in
    turn. *)
Lemma resolved_in_turn_total fuel ref di resources ctx :
  NoDup resources.*1 ->
  Forall (ready ref di) resources ->
  context_at ref di = Some ctx ->
  Forall (fun resource => default VNone (_instances ctx !! resource.1) = VNone)
         resources ->
  exists di1, resolved_in_turn (S fuel) ref di resources di1.
Proof.
  revert di ctx.
  induction resources as [|[interface provider] rest IH];
    intros di ctx Hdup Hready Hctx Hmiss.
  - exists di. constructor.
  - apply NoDup_cons in Hdup as [Hnotin Hdup].
    apply Forall_cons in Hready as [Hfirst Hready].
    apply Forall_cons in Hmiss as [Hmiss1 Hmiss].
    destruct (get_instance_resource_returns fuel _ _ _ _ Hfirst Hctx Hmiss1)
      as (v & di1 & ctx1 & Hget & Hctx1 & Hinst).
    pose proof (preserves_run _ _ _ _
                  (preserves_get_instance (S fuel) interface) Hget)
      as [Hp Hv Ho _].
    destruct (IH di1 ctx1) as [di' Hturn]; try done.
    + eapply Forall_impl; [exact Hready|].
      intros [i p] (Hprov & Hres & Hparams & Hsetup & Hscope & Hover).
      unfold ready. simpl in *. rewrite Hp, Ho.
      repeat split; try done.
      by apply _get_scoped_context_frame with di.
    + apply Forall_forall. intros [i p] Hin. simpl.
      rewrite Hinst, lookup_insert_ne.
      * rewrite Forall_forall in Hmiss. apply (Hmiss (i, p) Hin).
      * intros <-. apply Hnotin. apply list_elem_of_fmap. by exists (interface, p).
    + exists di'. destruct Hfirst as (Hprov & Hres & _ & _ & Hscope & Hover).
      by eapply resolved_cons.
Qed.

(** C4.  A caller resolves generator providers in turn, each owned by the
    context [ref] and not yet in its cache, and every resolution returns.
    Then each of these generators is on the exit stack of the context, above
    what the stack held before and in the order of the resolutions ([pushed]
    also has the generators that their arguments needed, each below the one
    that needed it).  [close] then runs teardowns in exactly the reverse of
    the push order and leaves the stack empty.  When no teardown raises it
    runs all of them and returns.  When one raises, that one is the last
    that runs, and [close] raises what it raised: so the teardown of a
    generator never runs before the teardown of one pushed after it. *)
Theorem close_runs_teardowns_in_reverse fuel ref di ctx resources di1 :
  context_at ref di = Some ctx ->
  resolved_in_turn fuel ref di resources di1 ->
  exists ctx1 pushed,
    context_at ref di1 = Some ctx1 /\
    _stack ctx1 = _stack ctx ++ pushed /\
    sublist (map (fun resource => obj resource.2) resources) pushed /\
    (Forall teardown_completes (_stack ctx1) ->
       exists di2,
         ScopedContext_close ref di1 = (Ok tt, di2) /\
         trace di2
           = trace di1 ++ map teardown_of (rev pushed)
               ++ map teardown_of (rev (_stack ctx)) /\
         context_at ref di2 = Some (set_stack (fun _ => []) ctx1)) /\
    exists ran skipped,
      rev pushed ++ rev (_stack ctx) = ran ++ skipped /\
      trace (after (ScopedContext_close ref) di1)
        = trace di1 ++ map teardown_of ran /\
      context_at ref (after (ScopedContext_close ref) di1)
        = Some (set_stack (fun _ => []) ctx1) /\
      (result (ScopedContext_close ref) di1 = Ok tt -> skipped = []) /\
      (forall e, result (ScopedContext_close ref) di1 = Raise e ->
         exists o, last ran = Some o /\ e = UserError (qualname o) /\
           teardown_raises o (trace di1 ++ map teardown_of (removelast ran))
             = true).
Proof.
  intros Hctx Hturn.
  destruct (resolved_in_turn_pushes _ _ _ _ _ _ Hctx Hturn)
    as (ctx1 & pushed & Hctx1 & Hstack & Hsub).
  exists ctx1, pushed. split; [done|]. split; [done|]. split; [done|]. split.
  - intros Hall. eexists. split; [by apply ScopedContext_close_quiet|].
    split; [|by rewrite context_at_set_context_at].
    assert (forall evs d, trace (set_context_at ref (set_stack (fun _ => []) ctx1)
                                   (fold_left (fun di ev => log ev di) evs d))
                          = trace d ++ evs) as Htrace.
    { intros evs d. destruct ref; simpl; by rewrite trace_fold_log. }
    by rewrite Htrace, Hstack, rev_app_distr, map_app.
  - destruct (ScopedContext_close_spec _ _ _ Hctx1)
      as (ran & skipped & Hrev & Htrace & Hctx2 & Hok & _ & Hraise).
    exists ran, skipped. rewrite <- rev_app_distr, <- Hstack. done.
Qed.

(** Open order [A, B], close order [B, A]. *)
Example close_A_B :
  trace (after (get_instance 1 (IType "A");; get_instance 1 (IType "B");; close)
               di_A_B)
  = [ EvCall "A"; EvSetup Singleton "A"; EvCall "B"; EvSetup Singleton "B";
      EvTeardown "B"; EvTeardown "A" ].
Proof. by vm_compute. Qed.

(** The broken [B] between [A] and [C]: [close] runs the teardowns of [C]
    and of [B], raises what that of [B] raised, and leaves the stack empty
    without running the teardown of [A]. *)
Example close_broken :
  map qualname (_stack (_singleton_context di_broken)) = ["A"; "B"; "C"] /\
  exists di',
    ScopedContext_close Singleton di_broken = (Raise (UserError "B"), di') /\
    trace di' = trace di_broken ++ [EvTeardown "C"; EvTeardown "B"] /\
    _stack (_singleton_context di') = [].
Proof.
  split; [by vm_compute|].
  eexists. split; [vm_compute; reflexivity|]. by vm_compute.
Qed.

Lemma close_runs_teardowns_in_reverse_witness :
  _stack (_singleton_context
            (after (get_instance 1 (IType "A");; get_instance 1 (IType "B"))
                   di_A_B))
  = [resource "A" []; resource "B" []] /\
  trace (after (ScopedContext_close Singleton)
           (after (get_instance 1 (IType "A");; get_instance 1 (IType "B"))
                  di_A_B))
  = [ EvCall "A"; EvSetup Singleton "A"; EvCall "B"; EvSetup Singleton "B";
      EvTeardown "B"; EvTeardown "A" ].
Proof.
  destruct (close_runs_teardowns_in_reverse 1 Singleton di_A_B
              (_singleton_context di_A_B) items_A_B
              (after (get_instance 1 (IType "A");; get_instance 1 (IType "B"))
                     di_A_B))
    as (ctx1 & pushed & Hctx1 & Hstack & Hsub & Hquiet & _).
  - reflexivity.
  - eapply (resolved_cons 1 Singleton di_A_B (IType "A") _
              (_singleton_context di_A_B) (VObj 0)
              (after (get_instance 1 (IType "A")) di_A_B));
      try (vm_compute; reflexivity).
    eapply (resolved_cons 1 Singleton _ (IType "B") _
              (_singleton_context (after (get_instance 1 (IType "A")) di_A_B))
              (VObj 1)
              (after (get_instance 1 (IType "A");; get_instance 1 (IType "B"))
                     di_A_B));
      try (vm_compute; reflexivity).
    apply resolved_nil.
  - injection Hctx1 as <-. split.
    + vm_compute. reflexivity.
    + destruct Hquiet as (di2 & Hclose & Htrace & _).
      { vm_compute. repeat constructor. }
      rewrite (after_run _ _ _ _ Hclose), Htrace.
      assert (pushed = [resource "A" []; resource "B" []]) as ->.
      { revert Hstack. vm_compute. by intros [= <-]. }
      vm_compute. reflexivity.
Defined.

(** * The override block *)

(** When the block raises, [override] does nothing more: the container is as
    the block left it, with the entry that [override] installed unless the
    block itself removed it. *)
Lemma override_block_raises {A} interface instance (block : M A) di e di' :
  is_Some (_providers di !! interface) ->
  block (set_override_instances <[interface := instance]> di) = (Raise e, di') ->
  override interface instance block di = (Raise e, di').
Proof.
  intros Hbound Hblock. unfold override, has_provider, with_generator.
  run_monad. rewrite bool_decide_true by done. simpl. by rewrite Hblock.
Qed.

(** When the block returns, the entry is deleted. *)
Lemma override_block_returns {A} interface instance (block : M A) di a di' :
  is_Some (_providers di !! interface) ->
  block (set_override_instances <[interface := instance]> di) = (Ok a, di') ->
  is_Some (_override_instances di' !! interface) ->
  override interface instance block di
  = (Ok a, set_override_instances (delete interface) di').
Proof.
  intros Hbound Hblock [v Hv].
  unfold override, has_provider, with_generator, del_override_instance.
  run_monad. rewrite bool_decide_true by done. simpl. rewrite Hblock. simpl.
  by rewrite Hv.
Qed.

(** C2, at the input on which the code departs from it: the block of
    [override(str, other)] raises.  The exception leaves the generator at its
    [yield], the [del] after it is not run, and the entry is still in the
    override map: the next resolution of [str] returns [other].  When the
    block returns, the entry is gone and the resolution returns the
    provider's own object. *)
Theorem override_entry_survives_raising_block :
  (exists di',
     override (IType "str") other failing_block di_str
       = (Raise (UserError "block"), di') /\
     _override_instances di' !! IType "str" = Some other /\
     result (get_instance 1 (IType "str")) di' = Ok other) /\
  (exists di',
     override (IType "str") other (get_instance 1 (IType "str")) di_str
       = (Ok other, di') /\
     _override_instances di' !! IType "str" = None /\
     result (get_instance 1 (IType "str")) di' = Ok (VObj 0)).
Proof.
  split; eexists; (split; [vm_compute; reflexivity|]); split; by vm_compute.
Qed.

(** * The request scope *)

(** Outside a request scope, when the handle is [None], a request-scoped
    interface without an override does not resolve. *)
Lemma get_instance_request_not_started fuel interface di provider :
  _override_instances di !! interface = None ->
  _providers di !! interface = Some provider ->
  scope provider = "request" ->
  _request_context_var di = None ->
  get_instance (S fuel) interface di = (Raise ContextNotStarted, di).
Proof.
  intros Hover Hprov Hscope Hvar. simpl.
  unfold get_instance_body, get_provider, _get_scoped_context,
    _get_request_context.
  run_monad. rewrite Hover, Hprov. simpl. rewrite Hscope. simpl.
  by rewrite Hvar.
Qed.

Lemma ScopedContext_close_var ref di r di' :
  ScopedContext_close ref di = (r, di') ->
  _request_context_var di' = _request_context_var di.
Proof.
  assert (Hvar : forall evs d,
            _request_context_var (fold_left (fun di ev => log ev di) evs d)
            = _request_context_var d).
  { induction evs as [|ev evs IH]; intros d; simpl; [done|]. by rewrite IH. }
  destruct (context_at ref di) as [ctx|] eqn:Hctx.
  - destruct (ScopedContext_close_eq _ _ _ Hctx)
      as (ran & skipped & pending & -> & _).
    intros [= _ <-]. destruct ref; simpl; apply Hvar.
  - unfold ScopedContext_close, read_context. run_monad. rewrite Hctx. simpl.
    by intros [= <- <-].
Qed.

(** When the block of a request scope returns, the handle is what it was
    before the scope was entered. *)
Lemma request_context_returns_resets {A} (block : M A) di a di' :
  request_context block di = (Ok a, di') ->
  _request_context_var di' = _request_context_var di.
Proof.
  unfold request_context, new_request_context, with_generator. run_monad.
  destruct (block _) as [[a1|e] di1]; simpl.
  - destruct (ScopedContext_close _ _) as [[[]|e] di2] eqn:Hclose;
      intros [= <- <-].
    apply ScopedContext_close_var in Hclose. by rewrite Hclose.
  - destruct (ScopedContext_close _ _) as [[[]|e'] di2]; discriminate.
Qed.

(** When the block raises, the handle is what the block left: nothing after
    the [yield] of [_request_context] is run but the exit of the context. *)
Lemma request_context_block_raises {A} (block : M A) di e di1 :
  block (set_request_context_var (Some (contexts_created di))
           (after new_request_context di)) = (Raise e, di1) ->
  _request_context_var (after (request_context block) di)
  = _request_context_var di1.
Proof.
  unfold after, request_context, new_request_context, with_generator.
  run_monad. intros ->. simpl.
  destruct (ScopedContext_close _ di1) as [[[]|e'] di2] eqn:Hclose; simpl;
    by apply ScopedContext_close_var in Hclose.
Qed.

(** C6, at the input on which the code departs from it: one request scope is
    entered and left, by an exception of its block.  No request scope is
    active then, but the handle still refers to the context of the scope
    that ended, so the resolution of the request-scoped [Service] does not
    fail: it makes an instance in that context.  After a scope whose block
    returned, the same resolution raises [ContextNotStarted]. *)
Theorem request_resolves_after_raising_scope :
  (exists di',
     request_context failing_block di_request
       = (Raise (UserError "block"), di') /\
     result (get_instance 1 (IType "Service")) di' = Ok (VObj 0)) /\
  (exists di',
     request_context (mret tt) di_request = (Ok tt, di') /\
     result (get_instance 1 (IType "Service")) di' = Raise ContextNotStarted).
Proof.
  split; eexists; (split; [vm_compute; reflexivity|]); by vm_compute.
Qed.

(** C8, at the input on which the code departs from it: the block of a
    request scope resolves [Service] and raises.  The context is closed, but
    the reset of the handle, which comes after the [yield], is not run: the
    handle, [None] before, refers to the ended context, and a later
    resolution returns the instance that was made inside the scope.  The
    same holds for the async request scope. *)
Theorem request_handle_survives_raising_block :
  let block := get_instance 1 (IType "Service");; failing_block in
  let ablock := aget_instance 1 (IType "Service");; failing_block in
  _request_context_var di_request = None /\
  (exists di',
     request_context block di_request = (Raise (UserError "block"), di') /\
     _request_context_var di' = Some 0 /\
     (exists ctx, request_contexts di' !! 0 = Some ctx /\
        _instances ctx !! IType "Service" = Some (VObj 0)) /\
     get_instance 1 (IType "Service") di' = (Ok (VObj 0), di')) /\
  (exists di',
     arequest_context ablock di_request = (Raise (UserError "block"), di') /\
     _request_context_var di' = Some 0 /\
     aget_instance 1 (IType "Service") di' = (Ok (VObj 0), di')).
Proof.
  split; [done|]. split.
  - eexists. split; [vm_compute; reflexivity|]. split; [by vm_compute|].
    split; [|by vm_compute]. eexists. split; by vm_compute.
  - eexists. split; [vm_compute; reflexivity|]. split; by vm_compute.
Qed.

(** * More on the registry *)

(** What a call of [register_provider] that returns has done. *)
Lemma register_provider_Ok_inv interface o s override di provider di' :
  register_provider interface o s override di = (Ok provider, di') ->
  let key := effective_interface di {| obj := o; scope := s |} interface in
  provider = {| obj := o; scope := s |} /\
  _providers di' = <[key := provider]> (_providers di) /\
  same_contexts di di' /\
  event_types_created di'
    = (if wants_event_type provider interface
       then S (event_types_created di) else event_types_created di) /\
  (is_Some (_providers di !! key) -> override = true).
Proof.
  unfold register_provider, effective_interface, has_provider, new_event_type.
  set (p := {| obj := o; scope := s |}).
  destruct (wants_event_type p interface) eqn:Hw; run_monad.
  - set (di0 := set_counters _ _ _ di).
    case_bool_decide as Hbound.
    + destruct override; [|discriminate]. intros [= <- <-]. rewrite Hw.
      by repeat split.
    + destruct (_validate_provider_scope p di0) as [r1 di1] eqn:H1.
      destruct (_validate_provider_scope_inv _ _ _ _ H1) as [-> [[-> _]|[-> _]]];
        [|discriminate].
      destruct (_validate_provider_type p di0) as [r2 di2] eqn:H2.
      destruct (_validate_provider_type_inv _ _ _ _ H2) as [-> [->|[->| ->]]];
        [|discriminate..].
      destruct (_validate_provider_match_scopes _ p di0) as [[[]|e] di3] eqn:H3;
        [|discriminate].
      apply readonly_eq in H3 as ->; [|readonly].
      intros [= <- <-]. rewrite Hw. by repeat split.
  - case_bool_decide as Hbound.
    + destruct override; [|discriminate]. intros [= <- <-]. rewrite Hw.
      by repeat split.
    + destruct (_validate_provider_scope p di) as [r1 di1] eqn:H1.
      destruct (_validate_provider_scope_inv _ _ _ _ H1) as [-> [[-> _]|[-> _]]];
        [|discriminate].
      destruct (_validate_provider_type p di) as [r2 di2] eqn:H2.
      destruct (_validate_provider_type_inv _ _ _ _ H2) as [-> [->|[->| ->]]];
        [|discriminate..].
      destruct (_validate_provider_match_scopes _ p di) as [[[]|e] di3] eqn:H3;
        [|discriminate].
      apply readonly_eq in H3 as ->; [|readonly].
      intros [= <- <-]. rewrite Hw. by repeat split.
Qed.

(** X1.  When [register_provider] returns for an interface of the caller
    (not the [Event] case), the registry is the old one with this interface
    bound to the new provider: [get_provider] returns it, [has_provider]
    says yes, every other binding is as before, and no context, cache, handle
    or override was touched. *)
Theorem register_provider_then_get interface o s override di provider di' :
  register_provider interface o s override di = (Ok provider, di') ->
  wants_event_type {| obj := o; scope := s |} interface = false ->
  provider = {| obj := o; scope := s |} /\
  get_provider interface di' = (Ok provider, di') /\
  has_provider interface di' = (Ok true, di') /\
  (forall other, other <> interface ->
     _providers di' !! other = _providers di !! other) /\
  same_contexts di di'.
Proof.
  intros Hreg Hevent.
  destruct (register_provider_Ok_inv _ _ _ _ _ _ _ Hreg)
    as (-> & Hprov & Hsame & _ & _).
  unfold effective_interface in Hprov. rewrite Hevent in Hprov.
  split; [done|]. split.
  { unfold get_provider. run_monad. by rewrite Hprov, lookup_insert_eq. }
  split.
  { unfold has_provider. run_monad. rewrite Hprov, lookup_insert_eq.
    by rewrite bool_decide_true. }
  split; [|done]. intros other Hne. by rewrite Hprov, lookup_insert_ne.
Qed.

Lemma register_provider_then_get_witness :
  {| obj := plain "f" []; scope := "singleton" |}
    = {| obj := plain "f" []; scope := "singleton" |} /\
  get_provider (IType "str") di_str
    = (Ok {| obj := plain "f" []; scope := "singleton" |}, di_str) /\
  has_provider (IType "str") di_str = (Ok true, di_str) /\
  (forall other, other <> IType "str" ->
     _providers di_str !! other = _providers new_PyxDI !! other) /\
  same_contexts new_PyxDI di_str.
Proof.
  apply (register_provider_then_get (IType "str") (plain "f" []) "singleton"
           false new_PyxDI {| obj := plain "f" []; scope := "singleton" |} di_str);
    vm_compute; reflexivity.
Defined.

Lemma wants_event_type_interface provider interface :
  wants_event_type provider interface = true ->
  interface = INone \/ interface = INoneType.
Proof.
  unfold wants_event_type. intros H.
  apply andb_prop in H as [_ H].
  apply orb_prop in H as [H|H]; apply bool_decide_eq_true in H; auto.
Qed.

(** X2.  A generator registered with [None] or [NoneType] as its interface is
    filed under an [Event] type of its own.  In a container whose [Event]
    keys were all created by earlier registrations, this key is new: the call
    never raises [ProviderAlreadyBound], with or without [override], it
    replaces no binding, the binding of [None] itself is untouched, and the
    container is again one whose [Event] keys were all created before. *)
Theorem register_event_type_is_new interface o s override di :
  event_types_fresh di ->
  wants_event_type {| obj := o; scope := s |} interface = true ->
  let key := IEvent (event_types_created di) in
  _providers di !! key = None /\
  result (register_provider interface o s override) di
    <> Raise ProviderAlreadyBound /\
  forall provider di',
    register_provider interface o s override di = (Ok provider, di') ->
    _providers di' = <[key := provider]> (_providers di) /\
    _providers di' !! interface = _providers di !! interface /\
    event_types_fresh di'.
Proof.
  intros Hfresh Hwants key. subst key.
  assert (Hnew : _providers di !! IEvent (event_types_created di) = None).
  { destruct (_providers di !! IEvent (event_types_created di)) eqn:Hkey;
      [|done].
    assert (event_types_created di < event_types_created di); [|lia].
    apply Hfresh. by rewrite Hkey. }
  split; [done|]. split.
  - unfold result, register_provider, has_provider, new_event_type.
    rewrite Hwants. run_monad. rewrite Hnew.
    rewrite bool_decide_false by by intros [? [=]].
    set (di0 := set_counters _ _ _ di).
    set (p := {| obj := o; scope := s |}).
    destruct (_validate_provider_scope p di0) as [r1 di1] eqn:H1.
    destruct (_validate_provider_scope_inv _ _ _ _ H1) as [-> [[-> _]|[-> _]]];
      [|done].
    destruct (_validate_provider_type p di0) as [r2 di2] eqn:H2.
    destruct (_validate_provider_type_inv _ _ _ _ H2) as [-> [->|[->| ->]]];
      [|done..].
    destruct (_validate_provider_match_scopes _ p di0) as [[[]|e] di3] eqn:H3;
      [done|].
    unfold _validate_provider_match_scopes in H3.
    apply bind_inv in H3 as [(related & di4 & Hrel & Hmatch)|(e' & Hrel & [= ->])].
    + apply match_scopes_inv in Hmatch as [_ [[? _]|[He _]]]; [done|].
      by inversion He.
    + apply related_providers_inv in Hrel as [_ [-> | ->]]; done.
  - intros provider di' Hreg.
    destruct (register_provider_Ok_inv _ _ _ _ _ _ _ Hreg)
      as (-> & Hprov & _ & Hcount & _).
    unfold effective_interface in Hprov. rewrite Hwants in *.
    split; [done|]. split.
    + rewrite Hprov, lookup_insert_ne; [done|].
      destruct (wants_event_type_interface _ _ Hwants) as [-> | ->]; done.
    + intros n. rewrite Hprov, Hcount.
      destruct (decide (n = event_types_created di)) as [->|Hne]; [lia|].
      rewrite lookup_insert_ne by congruence.
      intros H. apply Hfresh in H. lia.
Qed.

Lemma event_types_fresh_new : event_types_fresh new_PyxDI.
Proof. intros n [p Hp]. simpl in Hp. by rewrite lookup_empty in Hp. Qed.

Lemma register_event_type_is_new_witness :
  _providers new_PyxDI !! IEvent 0 = None /\
  result (register_provider INone (resource "on_start" []) "singleton" false)
    new_PyxDI <> Raise ProviderAlreadyBound /\
  forall provider di',
    register_provider INone (resource "on_start" []) "singleton" false new_PyxDI
      = (Ok provider, di') ->
    _providers di' = <[IEvent 0 := provider]> (_providers new_PyxDI) /\
    _providers di' !! INone = _providers new_PyxDI !! INone /\
    event_types_fresh di'.
Proof.
  apply (register_event_type_is_new INone (resource "on_start" []) "singleton"
           false new_PyxDI).
  - apply event_types_fresh_new.
  - reflexivity.
Defined.

(** X3.  Without [override], [register_provider] lets a provider in only
    with a scope that fits the kind of its object: any of the three scopes
    for a function, a coroutine function or a class, [singleton] or [request]
    for a generator or an async generator, and none for an object of another
    kind. *)
Theorem registered_scope_fits_kind interface o s di provider di' :
  register_provider interface o s false di = (Ok provider, di') ->
  s ∈ scopes_for (kind o).
Proof.
  intros Hreg.
  destruct (register_provider_validated _ _ _ _ _ _ Hreg)
    as (-> & Hscope & Htype & _).
  revert Hscope Htype.
  unfold result, _validate_provider_scope, _validate_provider_type,
    is_function, is_class, is_resource, is_async_resource, Scope_args,
    scopes_for. simpl.
  case_bool_decide as Hs; [|done]. intros _.
  destruct (kind o); simpl; try done.
  - case_bool_decide; [done|]. intros _.
    rewrite !elem_of_cons in Hs. rewrite !elem_of_cons.
    destruct Hs as [?|[?|[?|?]]]; auto; done.
  - case_bool_decide; [done|]. intros _.
    rewrite !elem_of_cons in Hs. rewrite !elem_of_cons.
    destruct Hs as [?|[?|[?|?]]]; auto; done.
Qed.

Lemma registered_scope_fits_kind_witness :
  "singleton" ∈ scopes_for (kind (resource "on_start" [])).
Proof.
  apply (registered_scope_fits_kind INone (resource "on_start" []) "singleton"
           new_PyxDI {| obj := resource "on_start" []; scope := "singleton" |}
           di_event).
  vm_compute. reflexivity.
Defined.

(** * Unregistering *)

Lemma ScopedContext_delete_spec ref interface di ctx :
  context_at ref di = Some ctx ->
  ScopedContext_delete ref interface di
  = (Ok tt, set_context_at ref (set_instances (delete interface) ctx) di).
Proof.
  intros Hctx. unfold ScopedContext_delete, update_context, read_context.
  run_monad. by rewrite Hctx.
Qed.

Lemma context_at_set_providers ref f di :
  context_at ref (set_providers f di) = context_at ref di.
Proof. by destruct ref. Qed.

(** What [unregister_provider] does for a bound interface. *)
Lemma unregister_provider_spec interface di provider :
  _providers di !! interface = Some provider ->
  handle_valid di ->
  exists di',
    unregister_provider interface di = (Ok tt, di') /\
    _providers di' = delete interface (_providers di) /\
    _request_context_var di' = _request_context_var di /\
    _override_instances di' = _override_instances di /\
    trace di' = trace di /\
    forall ref ctx, context_at ref di = Some ctx ->
      exists ctx', context_at ref di' = Some ctx' /\
        _stack ctx' = _stack ctx /\ _async_stack ctx' = _async_stack ctx /\
        (forall other, other <> interface ->
           _instances ctx' !! other = _instances ctx !! other) /\
        (_get_scoped_context (scope provider) di = (Ok (Some ref), di) ->
           _instances ctx' !! interface = None) /\
        (_get_scoped_context (scope provider) di <> (Ok (Some ref), di) ->
           ctx' = ctx).
Proof.
  intros Hprov Hvalid.
  unfold unregister_provider, has_provider, get_provider. run_monad.
  rewrite Hprov. rewrite bool_decide_true by done. simpl. rewrite Hprov. simpl.
  destruct (_get_scoped_context (scope provider) di) as [r di0] eqn:Hscope.
  destruct (_get_scoped_context_inv _ _ _ _ Hscope) as [-> Hcases].
  assert (Hown : forall ref ctx,
            r = Ok (Some ref) -> context_at ref di = Some ctx ->
            exists di',
              (let (r0, di'1) := ScopedContext_delete ref interface di in
               match r0 with
               | Ok _ => (Ok (), set_providers (delete interface) di'1)
               | Raise e => (Raise e, di'1)
               end) = (Ok tt, di') /\
              _providers di' = delete interface (_providers di) /\
              _request_context_var di' = _request_context_var di /\
              _override_instances di' = _override_instances di /\
              trace di' = trace di /\
              forall ref' ctx0, context_at ref' di = Some ctx0 ->
                exists ctx', context_at ref' di' = Some ctx' /\
                  _stack ctx' = _stack ctx0 /\
                  _async_stack ctx' = _async_stack ctx0 /\
                  (forall other, other <> interface ->
                     _instances ctx' !! other = _instances ctx0 !! other) /\
                  ((r, di) = (Ok (Some ref'), di) ->
                     _instances ctx' !! interface = None) /\
                  ((r, di) <> (Ok (Some ref'), di) -> ctx' = ctx0)).
  { intros ref ctx -> Hctx. rewrite (ScopedContext_delete_spec _ _ _ _ Hctx).
    eexists. split; [done|].
    split; [by destruct ref|]. split; [by destruct ref|].
    split; [by destruct ref|]. split; [by destruct ref|].
    intros ref' ctx0 Hctx0. rewrite context_at_set_providers.
    destruct (decide (ref' = ref)) as [->|Hne].
    - rewrite context_at_set_context_at. eexists. split; [done|].
      rewrite Hctx in Hctx0. inversion Hctx0; subst. simpl.
      split; [done|]. split; [done|]. split.
      + intros other Hother. by rewrite lookup_delete_ne.
      + split; [intros _; apply lookup_delete_eq|]. by intros [].
    - rewrite context_at_set_context_at_ne by done. exists ctx0.
      split; [done|]. split; [done|]. split; [done|]. split; [done|].
      split; [|done]. intros [= ->]. done. }
  destruct Hcases as [[Hs ->]|[[Hs [(id & Hid & ->)| [Hid ->]]]|(_ & _ & ->)]].
  - by apply (Hown Singleton (_singleton_context di)).
  - destruct (Hvalid _ Hid) as [ctx Hctx].
    by apply (Hown (Request id) ctx).
  - simpl. eexists. split; [done|]. repeat split; try done.
    intros ref' ctx0 Hctx0. rewrite context_at_set_providers.
    exists ctx0. repeat split; try done; intros [=].
  - simpl. eexists. split; [done|]. repeat split; try done.
    intros ref' ctx0 Hctx0. rewrite context_at_set_providers.
    exists ctx0. repeat split; try done; intros [=].
Qed.

(** X4.  [unregister_provider] of an interface that is not bound raises and
    changes nothing.  Of a bound one it returns, and then: the interface is
    not bound any more ([has_provider] says no, [get_provider] raises), the
    other bindings and the override map are as before, the cached instance of
    the interface is gone from the scoped context that owns the provider's
    scope, every other cached instance is in place, no exit stack has changed
    (a teardown that is pending stays pending), and a context that does not
    own the scope is untouched: for a request-scoped provider outside of any
    request scope, no context at all. *)
Theorem unregister_provider_effect interface di :
  handle_valid di ->
  match _providers di !! interface with
  | None => unregister_provider interface di = (Raise NotRegistered, di)
  | Some provider =>
      exists di',
        unregister_provider interface di = (Ok tt, di') /\
        has_provider interface di' = (Ok false, di') /\
        get_provider interface di' = (Raise BindingDoesNotExist, di') /\
        (forall other, other <> interface ->
           _providers di' !! other = _providers di !! other) /\
        _override_instances di' = _override_instances di /\
        forall ref ctx, context_at ref di = Some ctx ->
          exists ctx', context_at ref di' = Some ctx' /\
            _stack ctx' = _stack ctx /\ _async_stack ctx' = _async_stack ctx /\
            (forall other, other <> interface ->
               _instances ctx' !! other = _instances ctx !! other) /\
            (_get_scoped_context (scope provider) di = (Ok (Some ref), di) ->
               _instances ctx' !! interface = None) /\
            (_get_scoped_context (scope provider) di <> (Ok (Some ref), di) ->
               ctx' = ctx)
  end.
Proof.
  intros Hvalid. destruct (_providers di !! interface) as [provider|] eqn:Hprov.
  - destruct (unregister_provider_spec _ _ _ Hprov Hvalid)
      as (di' & Hun & Hprov' & _ & Hover & _ & Hctx).
    exists di'. split; [done|]. split.
    { unfold has_provider. run_monad. rewrite Hprov', lookup_delete_eq.
      by rewrite bool_decide_false by by intros [? [=]]. }
    split.
    { unfold get_provider. run_monad. by rewrite Hprov', lookup_delete_eq. }
    split; [|done]. intros other Hne. by rewrite Hprov', lookup_delete_ne.
  - unfold unregister_provider, has_provider. run_monad. rewrite Hprov.
    by rewrite bool_decide_false by by intros [? [=]].
Qed.

Lemma unregister_provider_effect_witness :
  exists di',
    unregister_provider (IType "str") di_resolved = (Ok tt, di') /\
    has_provider (IType "str") di' = (Ok false, di') /\
    get_provider (IType "str") di' = (Raise BindingDoesNotExist, di') /\
    (forall other, other <> IType "str" ->
       _providers di' !! other = _providers di_resolved !! other) /\
    _override_instances di' = _override_instances di_resolved /\
    forall ref ctx, context_at ref di_resolved = Some ctx ->
      exists ctx', context_at ref di' = Some ctx' /\
        _stack ctx' = _stack ctx /\ _async_stack ctx' = _async_stack ctx /\
        (forall other, other <> IType "str" ->
           _instances ctx' !! other = _instances ctx !! other) /\
        (_get_scoped_context "singleton" di_resolved
           = (Ok (Some ref), di_resolved) ->
           _instances ctx' !! IType "str" = None) /\
        (_get_scoped_context "singleton" di_resolved
           <> (Ok (Some ref), di_resolved) ->
           ctx' = ctx).
Proof.
  apply (unregister_provider_effect (IType "str") di_resolved).
  intros id. vm_compute. discriminate.
Defined.

(** X5.  Register, then unregister: when an interface that was free is
    registered and unregistered again, the provider registry is exactly the
    one from before, and so are the request handle, the override map and the
    trace. *)
Theorem register_then_unregister interface o s override di provider di1 :
  _providers di !! interface = None ->
  wants_event_type {| obj := o; scope := s |} interface = false ->
  handle_valid di ->
  register_provider interface o s override di = (Ok provider, di1) ->
  exists di2,
    unregister_provider interface di1 = (Ok tt, di2) /\
    _providers di2 = _providers di /\
    _request_context_var di2 = _request_context_var di /\
    _override_instances di2 = _override_instances di /\
    trace di2 = trace di.
Proof.
  intros Hfree Hevent Hvalid Hreg.
  destruct (register_provider_Ok_inv _ _ _ _ _ _ _ Hreg)
    as (-> & Hprov & (Hs & Hv & Ho & Hr & Ht) & _ & _).
  unfold effective_interface in Hprov. rewrite Hevent in Hprov.
  assert (Hvalid1 : handle_valid di1).
  { intros id. rewrite Hv, Hr. apply Hvalid. }
  assert (Hbound : _providers di1 !! interface
                   = Some {| obj := o; scope := s |})
    by by rewrite Hprov, lookup_insert_eq.
  destruct (unregister_provider_spec _ _ _ Hbound Hvalid1)
    as (di2 & Hun & Hprov2 & Hv2 & Ho2 & Ht2 & _).
  exists di2. split; [done|]. split.
  - by rewrite Hprov2, Hprov, delete_insert_id.
  - split; [congruence|]. split; congruence.
Qed.

Lemma register_then_unregister_witness :
  exists di2,
    unregister_provider (IType "str") di_str = (Ok tt, di2) /\
    _providers di2 = _providers new_PyxDI /\
    _request_context_var di2 = _request_context_var new_PyxDI /\
    _override_instances di2 = _override_instances new_PyxDI /\
    trace di2 = trace new_PyxDI.
Proof.
  apply (register_then_unregister (IType "str") (plain "f" []) "singleton"
           false new_PyxDI {| obj := plain "f" []; scope := "singleton" |}
           di_str).
  - reflexivity.
  - reflexivity.
  - intros id. vm_compute. discriminate.
  - vm_compute. reflexivity.
Defined.

(** * More on the override block *)

Lemma get_instance_overridden fuel interface instance di :
  _override_instances di !! interface = Some instance ->
  get_instance (S fuel) interface di = (Ok instance, di).
Proof.
  intros Hover. simpl. unfold get_instance_body. run_monad. by rewrite Hover.
Qed.

(** X6.  [override] of an interface that is not bound raises without running
    the block and changes nothing.  Of a bound one: a resolution of the
    interface inside the block returns the overriding instance, whatever the
    scope and the kind of the provider and whether a request scope is active
    or not; no provider is run, no context is touched; and at the normal exit
    the interface has no entry in the override map. *)
Theorem override_block_short_circuits fuel interface instance di :
  match _providers di !! interface with
  | None =>
      override interface instance (get_instance (S fuel) interface) di
      = (Raise NotRegistered, di)
  | Some provider =>
      exists di',
        override interface instance (get_instance (S fuel) interface) di
          = (Ok instance, di') /\
        _override_instances di' = delete interface (_override_instances di) /\
        _providers di' = _providers di /\
        _singleton_context di' = _singleton_context di /\
        request_contexts di' = request_contexts di /\
        _request_context_var di' = _request_context_var di /\
        trace di' = trace di
  end.
Proof.
  destruct (_providers di !! interface) as [provider|] eqn:Hprov.
  - eexists. split.
    + apply override_block_returns; [by rewrite Hprov| |].
      * apply get_instance_overridden. simpl. apply lookup_insert_eq.
      * simpl. by rewrite lookup_insert_eq.
    + simpl. split; [apply delete_insert_eq|]. by repeat split.
  - unfold override, has_provider. run_monad. rewrite Hprov.
    by rewrite bool_decide_false by by intros [? [=]].
Qed.

(** When the block returns and has left no entry for the interface, the
    [del] at the exit of [override] raises. *)
Lemma override_block_returns_without_entry {A} interface instance
    (block : M A) di a di' :
  is_Some (_providers di !! interface) ->
  block (set_override_instances <[interface := instance]> di) = (Ok a, di') ->
  _override_instances di' !! interface = None ->
  override interface instance block di = (Raise KeyError, di').
Proof.
  intros Hbound Hblock Hnone.
  unfold override, has_provider, with_generator, del_override_instance.
  run_monad. rewrite bool_decide_true by done. simpl. rewrite Hblock. simpl.
  by rewrite Hnone.
Qed.

(** X7.  An [override] block inside another one for the same interface: the
    exit of the inner block deletes the entry instead of putting the outer
    instance back, so from there on the outer block runs without any
    override for the interface, and the [del] at the exit of the outer block
    raises [KeyError]. *)
Theorem nested_override_loses_outer interface outer inner di :
  is_Some (_providers di !! interface) ->
  exists di',
    override interface inner (mret tt)
      (set_override_instances <[interface := outer]> di) = (Ok tt, di') /\
    _override_instances di' !! interface = None /\
    override interface outer (override interface inner (mret tt)) di
      = (Raise KeyError, di').
Proof.
  intros Hbound.
  assert (Hinner :
    override interface inner (mret tt)
      (set_override_instances <[interface := outer]> di)
    = (Ok tt,
       set_override_instances (delete interface)
         (set_override_instances <[interface := inner]>
            (set_override_instances <[interface := outer]> di)))).
  { apply override_block_returns; [done|done|].
    simpl. by rewrite lookup_insert_eq. }
  eexists. split; [exact Hinner|].
  split; [simpl; apply lookup_delete_eq|].
  eapply override_block_returns_without_entry; [done|exact Hinner|].
  simpl. apply lookup_delete_eq.
Qed.

Lemma nested_override_loses_outer_witness :
  exists di',
    override (IType "str") (VObj 200) (mret tt)
      (set_override_instances <[IType "str" := other]> di_str) = (Ok tt, di') /\
    _override_instances di' !! IType "str" = None /\
    override (IType "str") other (override (IType "str") (VObj 200) (mret tt))
      di_str = (Raise KeyError, di').
Proof.
  apply (nested_override_loses_outer (IType "str") other (VObj 200) di_str).
  vm_compute. eauto.
Defined.

(** * More on the request scope *)

Lemma entered_spec di :
  new_request_context di
    = (Ok (contexts_created di), after new_request_context di) /\
  _request_context_var (entered di) = Some (contexts_created di) /\
  context_at (Request (contexts_created di)) (entered di)
    = Some (new_context "request") /\
  _providers (entered di) = _providers di /\
  _override_instances (entered di) = _override_instances di /\
  _singleton_context (entered di) = _singleton_context di /\
  trace (entered di) = trace di.
Proof.
  unfold entered, after, new_request_context. run_monad.
  repeat split. apply lookup_insert_eq.
Qed.

Lemma request_context_unfold {A} (block : M A) di :
  request_context block di
  = with_generator block
      (modify (set_request_context_var (_request_context_var di));;
       ScopedContext_close (Request (contexts_created di)))
      (ScopedContext_close (Request (contexts_created di)))
      (entered di).
Proof. reflexivity. Qed.

(** X8.  Leaving a request scope whose block returned.  When
    [request_context] returns, the handle is what it was before the scope
    was entered (the outer context for a nested scope, [None] otherwise), the
    teardowns of the generators that the block entered in the context of the
    scope have run, last entered first, and the exit stack of that context
    is empty. *)
Theorem request_context_normal_exit {A} (block : M A) di a di' :
  request_context block di = (Ok a, di') ->
  _request_context_var di' = _request_context_var di /\
  exists di1 ctx1,
    block (entered di) = (Ok a, di1) /\
    context_at (Request (contexts_created di)) di1 = Some ctx1 /\
    trace di' = trace di1 ++ map teardown_of (rev (_stack ctx1)) /\
    context_at (Request (contexts_created di)) di'
      = Some (set_stack (fun _ => []) ctx1).
Proof.
  rewrite request_context_unfold. unfold with_generator.
  destruct (block (entered di)) as [[a1|e] di1] eqn:Hblock.
  - run_monad.
    set (di2 := set_request_context_var (_request_context_var di) di1).
    destruct (context_at (Request (contexts_created di)) di1) as [ctx1|]
      eqn:Hctx1.
    + destruct (ScopedContext_close _ di2) as [[[]|e] di3] eqn:Hclose;
        intros [= <- <-].
      split; [apply ScopedContext_close_var in Hclose; by rewrite Hclose|].
      exists di1, ctx1. split; [done|]. split; [done|].
      apply ScopedContext_close_Ok with (ctx := ctx1) in Hclose as ->; [|done].
      split;
        [|apply (context_at_set_context_at (Request (contexts_created di)))].
      simpl. by rewrite trace_fold_log.
    + unfold ScopedContext_close, read_context. run_monad.
      change (request_contexts di2) with (request_contexts di1).
      simpl in Hctx1. by rewrite Hctx1.
  - run_monad.
    destruct (ScopedContext_close _ di1) as [[[]|e'] di2]; discriminate.
Qed.

Lemma request_context_normal_exit_witness :
  let block := get_instance 1 (IType "A");; get_instance 1 (IType "B") in
  _request_context_var (after (request_context block) di_request_A_B) = None /\
  trace (after (request_context block) di_request_A_B)
  = [ EvCall "A"; EvSetup (Request 0) "A"; EvCall "B"; EvSetup (Request 0) "B";
      EvTeardown "B"; EvTeardown "A" ] /\
  exists ctx', context_at (Request 0) (after (request_context block) di_request_A_B)
                 = Some ctx' /\ _stack ctx' = [].
Proof.
  intros block.
  destruct (request_context_normal_exit block di_request_A_B (VObj 1)
              (after (request_context block) di_request_A_B))
    as (Hvar & di1 & ctx1 & Hblock & Hctx1 & Htrace & Hctx').
  { vm_compute. reflexivity. }
  split; [exact Hvar|].
  apply after_run in Hblock as <-.
  assert (ctx1 = set_stack (fun _ => [resource "A" []; resource "B" []]) ctx1
          /\ trace (after block (entered di_request_A_B))
             = [ EvCall "A"; EvSetup (Request 0) "A";
                 EvCall "B"; EvSetup (Request 0) "B" ]) as [Hstack Hbefore].
  { revert Hctx1. vm_compute. by intros [= <-]. }
  split.
  - rewrite Htrace, Hbefore, Hstack. reflexivity.
  - eexists. split; [exact Hctx'|reflexivity].
Defined.

Section MissInvoked.

Variable get_instance_rec : Interface -> M Value.
Hypothesis preserves_rec : forall interface, preserves (get_instance_rec interface).

(** On a miss, [ScopedContext.get] that returns has called the provider. *)
Lemma ScopedContext_get_miss_invoked ref interface di ctx provider v di' :
  context_at ref di = Some ctx ->
  default VNone (_instances ctx !! interface) = VNone ->
  _providers di !! interface = Some provider ->
  ScopedContext_get get_instance_rec ref interface di = (Ok v, di') ->
  invoked (obj provider) v di di'.
Proof using preserves_rec.
  intros Hctx Hmiss Hprov.
  unfold ScopedContext_get, read_context, get_provider. run_monad.
  rewrite Hctx. simpl. rewrite Hmiss. rewrite bool_decide_true by done.
  rewrite Hprov. simpl.
  destruct ((if is_resource provider
             then create_resource get_instance_rec provider ref
             else create_instance get_instance_rec provider) di)
    as [[v1|e] di1] eqn:Hcreate; [|discriminate].
  assert (Hinv : invoked (obj provider) v1 di di1).
  { destruct (is_resource provider);
      [by eapply create_resource_invoked|by eapply create_instance_invoked]. }
  destruct (update_context ref (set_instances <[interface:=v1]>) di1)
    as [[[]|e] di2] eqn:Hstore; intros [= <- <-].
  destruct (store_instance_inv _ _ _ _ _ _ Hstore eq_refl) as (Htrace & _).
  destruct Hinv as (before & args & kwargs & later & Ht & Hbody).
  exists before, args, kwargs, later. by rewrite Htrace.
Qed.

End MissInvoked.

(** X10.  Identity inside a scope.  For a provider whose scope is owned by
    a context, the singleton context or the context of the active request
    scope: once a resolution has returned an object, every resolution that
    follows in the same context returns that same object, runs no provider
    and changes nothing. *)
Theorem scoped_object_identity fuel fuel' interface di provider ref v di' :
  _providers di !! interface = Some provider ->
  _get_scoped_context (scope provider) di = (Ok (Some ref), di) ->
  get_instance fuel interface di = (Ok v, di') ->
  v <> VNone ->
  get_instance (S fuel') interface di' = (Ok v, di').
Proof.
  intros Hprov Hscope Hget Hnone.
  pose proof (preserves_get_instance fuel interface di) as Hres.
  unfold after in Hres. rewrite Hget in Hres. simpl in Hres.
  destruct Hres as [Hp Hv Ho _].
  destruct fuel as [|fuel]; [discriminate|]. simpl in Hget.
  unfold get_instance_body, get_provider in Hget. revert Hget. run_monad.
  destruct (_override_instances di !! interface) as [v0|] eqn:Hover.
  - intros [= <- <-]. by apply get_instance_overridden.
  - rewrite Hprov. simpl. rewrite Hscope. intros Hget.
    destruct (ScopedContext_get_stores _ _ _ _ _ _ Hget) as (ctx' & Hctx' & Hinst).
    apply get_instance_hit with provider ref ctx'; try congruence.
    by apply _get_scoped_context_frame with di.
Qed.

Lemma scoped_object_identity_witness :
  get_instance 1 (IType "Service")
    (after (get_instance 1 (IType "Service")) (entered di_request))
  = (Ok (VObj 0), after (get_instance 1 (IType "Service")) (entered di_request)).
Proof.
  apply (scoped_object_identity 1 0 (IType "Service") (entered di_request)
           {| obj := plain "service" []; scope := "request" |} (Request 0)
           (VObj 0));
    try (vm_compute; reflexivity).
  discriminate.
Defined.

(** * More on closing *)

Lemma fold_log_frame evs di :
  _providers (fold_left (fun di ev => log ev di) evs di) = _providers di /\
  _request_context_var (fold_left (fun di ev => log ev di) evs di)
    = _request_context_var di /\
  _override_instances (fold_left (fun di ev => log ev di) evs di)
    = _override_instances di.
Proof.
  revert di. induction evs as [|ev evs IH]; intros di; simpl; [done|].
  destruct (IH (log ev di)) as (-> & -> & ->). done.
Qed.

Lemma ScopedContext_close_Ok_inv ref di di' :
  ScopedContext_close ref di = (Ok tt, di') ->
  exists ctx, context_at ref di = Some ctx.
Proof.
  destruct (context_at ref di) as [ctx|] eqn:Hctx; [eauto|].
  unfold ScopedContext_close, read_context. run_monad. by rewrite Hctx.
Qed.

(** X11.  Closing a context twice: the second [close] runs no teardown and
    leaves the container exactly as the first one left it, so each teardown
    runs once however often the context is closed. *)
Theorem close_twice ref di di1 :
  ScopedContext_close ref di = (Ok tt, di1) ->
  ScopedContext_close ref di1 = (Ok tt, di1).
Proof.
  intros Hclose.
  destruct (ScopedContext_close_Ok_inv _ _ _ Hclose) as [ctx Hctx].
  apply ScopedContext_close_Ok with (ctx := ctx) in Hclose as ->; [|done].
  erewrite ScopedContext_close_quiet;
    [|apply context_at_set_context_at|constructor].
  simpl. f_equal. destruct ref; simpl; [done|].
  unfold set_request_contexts. simpl. by rewrite insert_insert_eq.
Qed.

Lemma close_twice_witness :
  ScopedContext_close Singleton
    (after (get_instance 1 (IType "A");; close) di_A_B)
  = (Ok tt, after (get_instance 1 (IType "A");; close) di_A_B).
Proof.
  apply (close_twice Singleton (after (get_instance 1 (IType "A")) di_A_B)).
  vm_compute. reflexivity.
Defined.

(** X12.  [close] empties the exit stack and nothing else: the instance
    cache of the context is not cleared, whether [close] returns or a
    teardown makes it raise (it returns when no teardown raises).  An object
    that was resolved before the [close] is therefore still returned by the
    next resolution, for a generator provider too, whose teardown has run
    and whose setup is not run again. *)
Theorem close_keeps_instances fuel ref interface di ctx provider instance :
  context_at ref di = Some ctx ->
  _instances ctx !! interface = Some instance ->
  instance <> VNone ->
  _providers di !! interface = Some provider ->
  _get_scoped_context (scope provider) di = (Ok (Some ref), di) ->
  _override_instances di !! interface = None ->
  (Forall teardown_completes (_stack ctx) ->
     result (ScopedContext_close ref) di = Ok tt) /\
  exists ctx',
    context_at ref (after (ScopedContext_close ref) di) = Some ctx' /\
    _instances ctx' = _instances ctx /\ _stack ctx' = [] /\
    get_instance (S fuel) interface (after (ScopedContext_close ref) di)
      = (Ok instance, after (ScopedContext_close ref) di).
Proof.
  intros Hctx Hinst Hnone Hprov Hscope Hover.
  destruct (ScopedContext_close_eq _ _ _ Hctx)
    as (ran & skipped & pending & Hclose & _ & _ & Hquiet & _).
  rewrite (after_run _ _ _ _ Hclose), (result_run _ _ _ _ Hclose).
  split; [intros Hall; by rewrite (Hquiet Hall)|].
  set (evs := map teardown_of ran).
  destruct (fold_log_frame evs di) as (Hp & Hv & Ho).
  eexists. split; [apply context_at_set_context_at|].
  split; [done|]. split; [done|].
  eapply get_instance_hit.
  - destruct ref; simpl; by rewrite Ho.
  - destruct ref; simpl; by rewrite Hp.
  - apply _get_scoped_context_frame with di; [|done].
    destruct ref; simpl; by rewrite Hv.
  - apply context_at_set_context_at.
  - done.
  - done.
Qed.

Lemma close_keeps_instances_witness :
  let di := after (get_instance 1 (IType "A")) di_A_B in
  result (ScopedContext_close Singleton) di = Ok tt /\
  trace (after (ScopedContext_close Singleton) di)
    = [EvCall "A"; EvSetup Singleton "A"; EvTeardown "A"] /\
  get_instance 1 (IType "A") (after (ScopedContext_close Singleton) di)
    = (Ok (VObj 0), after (ScopedContext_close Singleton) di).
Proof.
  intros di.
  destruct (close_keeps_instances 0 Singleton (IType "A") di
              (_singleton_context di)
              {| obj := resource "A" []; scope := "singleton" |} (VObj 0))
    as (Hquiet & ctx' & _ & _ & _ & Hget);
    try (vm_compute; reflexivity); [discriminate|].
  split; [apply Hquiet; vm_compute; repeat constructor|].
  split; [vm_compute; reflexivity|exact Hget].
Defined.

(** X13.  [aclose] closes the exit stack, then the async exit stack.  When
    no teardown raises, it runs the teardowns of the exit stack, last pushed
    first, and after them those of the async exit stack, last pushed first;
    both stacks are empty afterwards and the instance cache is as it was.
    When closing the exit stack raises, [aclose] raises the same and stops
    there: no teardown of the async exit stack has run, and its exits are
    still pending. *)
Theorem aclose_runs_both_stacks ref ctx di :
  context_at ref di = Some ctx ->
  (Forall teardown_completes (_stack ctx) ->
   Forall teardown_completes (_async_stack ctx) ->
   exists di' ctx',
     ScopedContext_aclose ref di = (Ok tt, di') /\
     trace di'
       = trace di ++ map teardown_of (rev (_stack ctx))
         ++ map teardown_of (rev (_async_stack ctx)) /\
     context_at ref di' = Some ctx' /\
     _stack ctx' = [] /\ _async_stack ctx' = [] /\
     _instances ctx' = _instances ctx) /\
  (forall e di',
     ScopedContext_close ref di = (Raise e, di') ->
     ScopedContext_aclose ref di = (Raise e, di') /\
     context_at ref di' = Some (set_stack (fun _ => []) ctx) /\
     exists ran skipped,
       rev (_stack ctx) = ran ++ skipped /\
       trace di' = trace di ++ map teardown_of ran).
Proof.
  intros Hctx. split.
  - intros Hall Haall. unfold ScopedContext_aclose.
    rewrite bind_unfold, (ScopedContext_close_quiet _ _ _ Hctx Hall).
    unfold read_context. run_monad. rewrite context_at_set_context_at. simpl.
    destruct (drain_spec (_async_stack ctx)
                (trace (set_context_at ref (set_stack (fun _ => []) ctx)
                          (fold_left (fun di ev => log ev di)
                             (map teardown_of (rev (_stack ctx))) di))) [])
      as (ran & skipped & pending & Hdrain & Hrev & Hnone & Hquiet & _).
    specialize (Hquiet Haall). subst pending.
    rewrite (Hnone eq_refl), app_nil_r in Hrev. subst ran.
    simpl in Hdrain. rewrite Hdrain. simpl.
    unfold update_context, read_context. run_monad.
    rewrite context_at_fold_log, context_at_set_context_at. simpl.
    eexists. eexists. split; [done|]. split.
    + destruct ref; simpl; rewrite trace_fold_log; simpl;
        rewrite trace_fold_log; by rewrite <- app_assoc.
    + split; [apply context_at_set_context_at|]. done.
  - intros e di' Hclose. split.
    + unfold ScopedContext_aclose. by rewrite bind_unfold, Hclose.
    + destruct (ScopedContext_close_spec _ _ _ Hctx)
        as (ran & skipped & Hrev & Htrace & Hctx' & _).
      rewrite (after_run _ _ _ _ Hclose) in Htrace, Hctx'.
      split; [done|]. by exists ran, skipped.
Qed.

(** [A, B] on the exit stack and [C, D] on the async exit stack: the
    teardowns run in the order [B, A, D, C]. *)
Lemma aclose_runs_both_stacks_witness :
  _stack (_singleton_context di_A_B_C_D) = [resource "A" []; resource "B" []] /\
  _async_stack (_singleton_context di_A_B_C_D) = [aresource "C"; aresource "D"] /\
  exists di',
    ScopedContext_aclose Singleton di_A_B_C_D = (Ok tt, di') /\
    trace di'
      = trace di_A_B_C_D
        ++ [EvTeardown "B"; EvTeardown "A"; EvTeardown "D"; EvTeardown "C"] /\
    _stack (_singleton_context di') = [] /\
    _async_stack (_singleton_context di') = [].
Proof.
  split; [vm_compute; reflexivity|]. split; [vm_compute; reflexivity|].
  destruct (aclose_runs_both_stacks Singleton (_singleton_context di_A_B_C_D)
              di_A_B_C_D eq_refl) as [Hquiet _].
  destruct Hquiet as (di' & ctx' & Haclose & Htrace & Hctx' & Hs & Ha & _);
    [vm_compute; repeat constructor..|].
  exists di'. split; [exact Haclose|]. split; [exact Htrace|].
  simpl in Hctx'. injection Hctx' as ->. by split.
Defined.

(** The broken [B] between [A] and [C] on the exit stack, [D] on the async
    exit stack: [aclose] runs the teardowns of [C] and [B], raises what
    that of [B] raised, and runs neither that of [A] nor that of [D]. *)
Example aclose_broken :
  exists di',
    ScopedContext_aclose Singleton di_broken = (Raise (UserError "B"), di') /\
    trace di' = trace di_broken ++ [EvTeardown "C"; EvTeardown "B"] /\
    _stack (_singleton_context di') = [] /\
    _async_stack (_singleton_context di') = [aresource "D"].
Proof. eexists. split; [vm_compute; reflexivity|]. by vm_compute. Qed.

(** * Providers that the synchronous resolution cannot build *)

(** X14.  What the synchronous [get_instance] cannot build.  The interface
    has no override and no object in the cache of the context that owns its
    scope.  If its provider is a coroutine function, the resolution raises
    [InvalidMode]; if it is an async generator, or a generator whose scope is
    owned by no context, it raises [ResourceNotStarted].  It does so before
    any parameter is resolved: no provider has run and the container is
    unchanged. *)
Theorem sync_resolution_refuses fuel interface di provider owner e :
  _override_instances di !! interface = None ->
  _providers di !! interface = Some provider ->
  _get_scoped_context (scope provider) di = (Ok owner, di) ->
  (forall ref, owner = Some ref ->
     exists ctx, context_at ref di = Some ctx /\
       default VNone (_instances ctx !! interface) = VNone) ->
  sync_refusal (kind (obj provider)) owner = Some e ->
  get_instance (S fuel) interface di = (Raise e, di).
Proof.
  intros Hover Hprov Hscope Hmiss Hrefuse. simpl.
  unfold get_instance_body, get_provider. run_monad.
  rewrite Hover, Hprov. simpl. rewrite Hscope.
  unfold sync_refusal in Hrefuse.
  destruct owner as [ref|].
  - destruct (Hmiss ref eq_refl) as (ctx & Hctx & Hm).
    unfold ScopedContext_get, read_context, get_provider. run_monad.
    rewrite Hctx. simpl. rewrite Hm. rewrite bool_decide_true by done.
    rewrite Hprov. simpl.
    unfold create_instance, _validate_instance_is_not_resource, is_resource,
      is_async_resource, is_coroutine.
    destruct (kind (obj provider)); inversion Hrefuse; subst; done.
  - unfold create_instance, _validate_instance_is_not_resource, is_resource,
      is_async_resource, is_coroutine.
    destruct (kind (obj provider)); inversion Hrefuse; subst; done.
Qed.

Lemma sync_resolution_refuses_witness :
  get_instance 1 (IType "Service") di_coroutine = (Raise InvalidMode, di_coroutine).
Proof.
  apply (sync_resolution_refuses 0 (IType "Service") di_coroutine
           {| obj := {| qualname := "fetch"; kind := Coroutine; signature := [];
                        body := fun _ _ _ => New;
                        teardown_raises := fun _ => false |};
              scope := "singleton" |}
           (Some Singleton) InvalidMode); try (vm_compute; reflexivity).
  intros ref [= <-]. eexists. split; vm_compute; reflexivity.
Defined.

(** * Invariants of the resolution

    The resolution functions are made of a few steps that write to the
    container: logging, making an object, pushing on an exit stack, and
    storing an instance after a miss.  A relation that these steps respect is
    respected by [get_instance] and [aget_instance]. *)
Section Keeps.

Variable R : PyxDI -> PyxDI -> Prop.
Hypothesis R_refl : forall di, R di di.
Hypothesis R_trans : forall di1 di2 di3, R di1 di2 -> R di2 di3 -> R di1 di3.
Hypothesis R_log : forall ev, keeps R (modify (log ev)).
Hypothesis R_new_object : keeps R new_object.
Hypothesis R_stack : forall ref f, keeps R (update_context ref (set_stack f)).
Hypothesis R_async_stack :
  forall ref f, keeps R (update_context ref (set_async_stack f)).
Hypothesis R_store :
  forall ref interface instance di0 di1 ctx0,
    context_at ref di0 = Some ctx0 ->
    default VNone (_instances ctx0 !! interface) = VNone ->
    R di0 di1 ->
    R di0 (after (update_context ref (set_instances <[interface := instance]>)) di1).

Lemma keeps_readonly {A} (m : M A) : readonly m -> keeps R m.
Proof using R_refl. intros H di. rewrite H. apply R_refl. Qed.

Lemma keeps_bind {A B} (m : M A) (f : A -> M B) :
  keeps R m -> (forall a, keeps R (f a)) -> keeps R (m ≫= f).
Proof using R_refl R_trans.
  intros Hm Hf di. unfold after. rewrite bind_unfold.
  specialize (Hm di). unfold after in Hm.
  destruct (m di) as [[a|e] di1]; simpl in *; [|done].
  eapply R_trans; [done|]. apply Hf.
Qed.

Lemma keeps_run {A} (m : M A) di r di' :
  keeps R m -> m di = (r, di') -> R di di'.
Proof. intros H E. specialize (H di). unfold after in H. by rewrite E in H. Qed.

Lemma keeps_call o args kwargs : keeps R (call o args kwargs).
Proof using R_refl R_trans R_log R_new_object.
  unfold call. apply keeps_bind; [by apply keeps_readonly|].
  intros di0. apply keeps_bind; [apply R_log|]. intros _.
  destruct (body o _ _ _); [by apply keeps_readonly|apply R_new_object|
                            by apply keeps_readonly].
Qed.

Lemma keeps_enter_context ref o args kwargs :
  keeps R (enter_context ref o args kwargs).
Proof using R_refl R_trans R_log R_new_object R_stack.
  unfold enter_context. apply keeps_bind; [apply keeps_call|]. intros v.
  apply keeps_bind; [apply R_stack|]. intros _.
  apply keeps_bind; [apply R_log|]. intros _. by apply keeps_readonly.
Qed.

Lemma keeps_enter_async_context ref o args kwargs :
  keeps R (enter_async_context ref o args kwargs).
Proof using R_refl R_trans R_log R_new_object R_async_stack.
  unfold enter_async_context. apply keeps_bind; [apply keeps_call|]. intros v.
  apply keeps_bind; [apply R_async_stack|]. intros _.
  apply keeps_bind; [apply R_log|]. intros _. by apply keeps_readonly.
Qed.

Section KeepsRec.

Variable get_instance_rec aget_instance_rec : Interface -> M Value.
Hypothesis keeps_rec : forall interface, keeps R (get_instance_rec interface).
Hypothesis keeps_arec : forall interface, keeps R (aget_instance_rec interface).

Lemma keeps_provider_arguments params args kwargs :
  keeps R (provider_arguments get_instance_rec params args kwargs).
Proof using R_refl R_trans keeps_rec.
  revert args kwargs. induction params as [|parameter rest IH]; intros; simpl.
  - by apply keeps_readonly.
  - apply keeps_bind; [apply keeps_rec|]. intros instance.
    destruct (positional_only parameter); apply IH.
Qed.

Lemma keeps_aprovider_arguments params args kwargs :
  keeps R (provider_arguments aget_instance_rec params args kwargs).
Proof using R_refl R_trans keeps_arec.
  revert args kwargs. induction params as [|parameter rest IH]; intros; simpl.
  - by apply keeps_readonly.
  - apply keeps_bind; [apply keeps_arec|]. intros instance.
    destruct (positional_only parameter); apply IH.
Qed.

Lemma keeps_create_resource provider ref :
  keeps R (create_resource get_instance_rec provider ref).
Proof using R_refl R_trans R_log R_new_object R_stack keeps_rec.
  unfold create_resource, _get_provider_arguments.
  apply keeps_bind; [apply keeps_provider_arguments|].
  intros [args kwargs]. apply keeps_enter_context.
Qed.

Lemma keeps_create_instance provider :
  keeps R (create_instance get_instance_rec provider).
Proof using R_refl R_trans R_log R_new_object keeps_rec.
  unfold create_instance, _get_provider_arguments.
  apply keeps_bind; [apply keeps_readonly; readonly|]. intros _.
  destruct (is_coroutine provider); [by apply keeps_readonly|].
  apply keeps_bind; [apply keeps_provider_arguments|].
  intros [args kwargs]. apply keeps_call.
Qed.

Lemma keeps_acreate_resource provider ref :
  keeps R (acreate_resource aget_instance_rec provider ref).
Proof using R_refl R_trans R_log R_new_object R_async_stack keeps_arec.
  unfold acreate_resource, _aget_provider_arguments.
  apply keeps_bind; [apply keeps_aprovider_arguments|].
  intros [args kwargs]. apply keeps_enter_async_context.
Qed.

Lemma keeps_acreate_instance provider :
  keeps R (acreate_instance aget_instance_rec provider).
Proof using R_refl R_trans R_log R_new_object keeps_arec.
  unfold acreate_instance, _aget_provider_arguments.
  apply keeps_bind; [apply keeps_readonly; readonly|]. intros _.
  apply keeps_bind; [apply keeps_aprovider_arguments|].
  intros [args kwargs]. destruct (is_coroutine provider); apply keeps_call.
Qed.

(** The store after a miss, common to [get] and [aget]. *)
Lemma keeps_miss_then_store ref interface (create : Provider -> M Value) :
  (forall provider, keeps R (create provider)) ->
  keeps R
    (ctx ← read_context ref;
     let instance := default VNone (_instances ctx !! interface) in
     if bool_decide (instance = VNone) then
       provider ← get_provider interface;
       instance ← create provider;
       update_context ref (set_instances <[interface := instance]>);;
       mret instance
     else mret instance).
Proof using R_refl R_trans R_store.
  intros Hcreate di. unfold after, read_context, get_provider. run_monad.
  destruct (context_at ref di) as [ctx|] eqn:Hctx; simpl; [|apply R_refl].
  case_bool_decide as Hmiss; [|apply R_refl].
  destruct (_providers di !! interface) as [provider|]; simpl; [|apply R_refl].
  pose proof (Hcreate provider di) as Hc. unfold after in Hc.
  destruct (create provider di) as [[v|e] di1]; simpl in *; [|done].
  pose proof (R_store ref interface v di di1 ctx Hctx Hmiss Hc) as Hs.
  unfold after in Hs.
  by destruct (update_context ref (set_instances <[interface:=v]>) di1)
    as [[[]|e] di2].
Qed.

Lemma keeps_ScopedContext_get ref interface :
  keeps R (ScopedContext_get get_instance_rec ref interface).
Proof using R_refl R_trans R_log R_new_object R_stack R_store keeps_rec.
  apply (keeps_miss_then_store ref interface
           (fun provider =>
              if is_resource provider
              then create_resource get_instance_rec provider ref
              else create_instance get_instance_rec provider)).
  intros provider. destruct (is_resource provider);
    [apply keeps_create_resource|apply keeps_create_instance].
Qed.

Lemma keeps_ScopedContext_aget ref interface :
  keeps R (ScopedContext_aget get_instance_rec aget_instance_rec ref interface).
Proof using R_refl R_trans R_log R_new_object R_stack R_async_stack R_store
  keeps_rec keeps_arec.
  apply (keeps_miss_then_store ref interface
           (fun provider =>
              if is_resource provider
              then create_resource get_instance_rec provider ref
              else if is_async_resource provider
              then acreate_resource aget_instance_rec provider ref
              else acreate_instance aget_instance_rec provider)).
  intros provider. destruct (is_resource provider);
    [apply keeps_create_resource|].
  destruct (is_async_resource provider);
    [apply keeps_acreate_resource|apply keeps_acreate_instance].
Qed.

Lemma keeps_get_instance_body interface :
  keeps R (get_instance_body get_instance_rec interface).
Proof using R_refl R_trans R_log R_new_object R_stack R_store keeps_rec.
  unfold get_instance_body.
  apply keeps_bind; [by apply keeps_readonly|]. intros di0.
  destruct (_override_instances di0 !! interface);
    [by apply keeps_readonly|].
  apply keeps_bind; [apply keeps_readonly; readonly|]. intros provider.
  apply keeps_bind; [apply keeps_readonly; readonly|].
  intros [ref|]; [apply keeps_ScopedContext_get|apply keeps_create_instance].
Qed.

Lemma keeps_aget_instance_body interface :
  keeps R (aget_instance_body get_instance_rec aget_instance_rec interface).
Proof using R_refl R_trans R_log R_new_object R_stack R_async_stack R_store
  keeps_rec keeps_arec.
  unfold aget_instance_body.
  apply keeps_bind; [by apply keeps_readonly|]. intros di0.
  destruct (_override_instances di0 !! interface);
    [by apply keeps_readonly|].
  apply keeps_bind; [apply keeps_readonly; readonly|]. intros provider.
  apply keeps_bind; [apply keeps_readonly; readonly|].
  intros [ref|]; [apply keeps_ScopedContext_aget|apply keeps_acreate_instance].
Qed.

End KeepsRec.

Lemma keeps_get_instance fuel interface : keeps R (get_instance fuel interface).
Proof using R_refl R_trans R_log R_new_object R_stack R_store.
  revert interface. induction fuel as [|fuel IH]; intros interface; simpl.
  - by apply keeps_readonly.
  - by apply keeps_get_instance_body.
Qed.

Lemma keeps_aget_instance fuel interface : keeps R (aget_instance fuel interface).
Proof using R_refl R_trans R_log R_new_object R_stack R_async_stack R_store.
  revert interface. induction fuel as [|fuel IH]; intros interface; simpl.
  - by apply keeps_readonly.
  - apply keeps_aget_instance_body; [apply keeps_get_instance|done].
Qed.

End Keeps.

Lemma grows_refl di : grows di di.
Proof. split; eauto. Qed.

Lemma grows_trans di1 di2 di3 : grows di1 di2 -> grows di2 di3 -> grows di1 di3.
Proof.
  intros [Ho1 He1 Hc1 Hn1 Hk1] [Ho2 He2 Hc2 Hn2 Hk2].
  split; try lia; try congruence.
  - intros ref ctx interface Hctx Hsome.
    destruct (Hn1 _ _ _ Hctx Hsome) as (ctx2 & Hctx2 & Hsome2). eauto.
  - intros ref ctx interface instance Hctx Hinst Hnone.
    destruct (Hk1 _ _ _ _ Hctx Hinst Hnone) as (ctx2 & Hctx2 & Hinst2). eauto.
Qed.

Lemma grows_log ev : keeps grows (modify (log ev)).
Proof.
  intros di. unfold after. simpl.
  split; try done; intros ref ctx; intros; exists ctx;
    by rewrite context_at_log.
Qed.

Lemma grows_new_object : keeps grows new_object.
Proof.
  intros di. unfold after. simpl.
  split; simpl; try done; try lia; intros ref ctx; intros; exists ctx;
    by rewrite context_at_set_counters.
Qed.

Lemma grows_update ref g :
  (forall ctx, _instances (g ctx) = _instances ctx) ->
  keeps grows (update_context ref g).
Proof.
  intros Hg di. unfold after, update_context, read_context. run_monad.
  destruct (context_at ref di) as [ctx|] eqn:Hctx; simpl; [|apply grows_refl].
  split; try by destruct ref.
  - intros ref' ctx' interface Hctx' Hsome.
    destruct (decide (ref' = ref)) as [->|Hne].
    + rewrite context_at_set_context_at. eexists. split; [done|].
      rewrite Hg. congruence.
    + rewrite context_at_set_context_at_ne by done. eauto.
  - intros ref' ctx' interface instance Hctx' Hinst Hnone.
    destruct (decide (ref' = ref)) as [->|Hne].
    + rewrite context_at_set_context_at. eexists. split; [done|].
      rewrite Hg. congruence.
    + rewrite context_at_set_context_at_ne by done. eauto.
Qed.

Lemma grows_store ref interface instance di0 di1 ctx0 :
  context_at ref di0 = Some ctx0 ->
  default VNone (_instances ctx0 !! interface) = VNone ->
  grows di0 di1 ->
  grows di0
    (after (update_context ref (set_instances <[interface := instance]>)) di1).
Proof.
  intros Hctx0 Hmiss [Ho He Hc Hn Hk].
  unfold after, update_context, read_context. run_monad.
  destruct (context_at ref di1) as [ctx1|] eqn:Hctx1; simpl; [|by split].
  split; try by destruct ref.
  - intros ref' ctx interface' Hctx Hsome.
    destruct (Hn _ _ _ Hctx Hsome) as (ctx' & Hctx' & Hsome').
    destruct (decide (ref' = ref)) as [->|Hne].
    + rewrite context_at_set_context_at. eexists. split; [done|]. simpl.
      destruct (decide (interface' = interface)) as [->|Hi].
      * by rewrite lookup_insert_eq.
      * rewrite lookup_insert_ne by done. congruence.
    + rewrite context_at_set_context_at_ne by done. eauto.
  - intros ref' ctx interface' instance' Hctx Hinst Hnone.
    destruct (Hk _ _ _ _ Hctx Hinst Hnone) as (ctx' & Hctx' & Hinst').
    destruct (decide (ref' = ref)) as [->|Hne].
    + rewrite context_at_set_context_at. eexists. split; [done|]. simpl.
      destruct (decide (interface' = interface)) as [->|Hi].
      * exfalso. rewrite Hctx0 in Hctx. inversion Hctx; subst.
        rewrite Hinst in Hmiss. simpl in Hmiss. done.
      * rewrite lookup_insert_ne by done. congruence.
    + rewrite context_at_set_context_at_ne by done. eauto.
Qed.

Lemma grows_get_instance fuel interface : keeps grows (get_instance fuel interface).
Proof.
  apply keeps_get_instance;
    [apply grows_refl|apply grows_trans|apply grows_log|apply grows_new_object
    |intros; by apply grows_update|apply grows_store].
Qed.

Lemma grows_aget_instance fuel interface :
  keeps grows (aget_instance fuel interface).
Proof.
  apply keeps_aget_instance;
    [apply grows_refl|apply grows_trans|apply grows_log|apply grows_new_object
    |intros; by apply grows_update|intros; by apply grows_update
    |apply grows_store].
Qed.

(** X15.  A resolution never takes an object out of a cache and never puts
    another one in its place.  Whatever [get_instance] or [aget_instance] is
    asked and whether it returns or raises, every object that a scoped
    context held for an interface before the call is what it holds for that
    interface after it. *)
Theorem resolution_keeps_cached_objects fuel asked di ref ctx interface instance :
  context_at ref di = Some ctx ->
  _instances ctx !! interface = Some instance ->
  instance <> VNone ->
  (exists ctx', context_at ref (after (get_instance fuel asked) di) = Some ctx' /\
     _instances ctx' !! interface = Some instance) /\
  (exists ctx', context_at ref (after (aget_instance fuel asked) di) = Some ctx' /\
     _instances ctx' !! interface = Some instance).
Proof.
  intros Hctx Hinst Hnone. split.
  - by apply (grows_cached _ _ (grows_get_instance fuel asked di)) with ctx.
  - by apply (grows_cached _ _ (grows_aget_instance fuel asked di)) with ctx.
Qed.

(** [str] is cached; the resolution of [int] makes an object and puts it in
    the same cache. *)
Lemma resolution_keeps_cached_objects_witness :
  _instances (_singleton_context di_cached) !! IType "int" = None /\
  _instances (_singleton_context (after (get_instance 1 (IType "int")) di_cached))
    !! IType "int" = Some (VObj 1) /\
  _instances (_singleton_context (after (aget_instance 1 (IType "int")) di_cached))
    !! IType "int" = Some (VObj 1) /\
  (exists ctx',
     context_at Singleton (after (get_instance 1 (IType "int")) di_cached)
       = Some ctx' /\
     _instances ctx' !! IType "str" = Some (VObj 0)) /\
  (exists ctx',
     context_at Singleton (after (aget_instance 1 (IType "int")) di_cached)
       = Some ctx' /\
     _instances ctx' !! IType "str" = Some (VObj 0)).
Proof.
  split; [by vm_compute|]. split; [by vm_compute|]. split; [by vm_compute|].
  apply (resolution_keeps_cached_objects 1 (IType "int") di_cached Singleton
           (_singleton_context di_cached) (IType "str") (VObj 0));
    try (vm_compute; reflexivity).
  discriminate.
Defined.

Lemma call_makes_new o args kwargs di v di' :
  makes_new o ->
  call o args kwargs di = (Ok v, di') ->
  v = VObj (objects_created di) /\ objects_created di' = S (objects_created di).
Proof.
  intros Hnew. unfold call, new_object. run_monad. rewrite Hnew. simpl.
  by intros [= <- <-].
Qed.

Lemma enter_context_makes_new ref o args kwargs di v di' :
  makes_new o ->
  enter_context ref o args kwargs di = (Ok v, di') ->
  v = VObj (objects_created di) /\ objects_created di' = S (objects_created di).
Proof.
  intros Hnew. unfold enter_context. intros H.
  apply bind_inv in H as [(instance & di1 & Hcall & H)|(e & _ & [=])].
  destruct (call_makes_new _ _ _ _ _ _ Hnew Hcall) as [-> Hcount].
  revert H. unfold update_context, read_context. run_monad.
  destruct (context_at ref di1); simpl; [|discriminate].
  intros [= <- <-]. split; [done|]. by destruct ref.
Qed.

(** On a miss, [ScopedContext.get] of a provider whose callable makes new
    objects, when it returns, hands out an object that did not exist
    before. *)
Lemma ScopedContext_get_miss_new fuel ref interface di ctx provider v di' :
  context_at ref di = Some ctx ->
  default VNone (_instances ctx !! interface) = VNone ->
  _providers di !! interface = Some provider ->
  makes_new (obj provider) ->
  ScopedContext_get (get_instance fuel) ref interface di = (Ok v, di') ->
  exists n, v = VObj n /\ objects_created di <= n < objects_created di'.
Proof.
  intros Hctx Hmiss Hprov Hnew.
  unfold ScopedContext_get, read_context, get_provider. run_monad.
  rewrite Hctx. simpl. rewrite Hmiss. rewrite bool_decide_true by done.
  rewrite Hprov. simpl. intros H.
  apply bind_inv in H as [(v1 & di2 & Hcreate & H)|(e & _ & [=])].
  assert (exists n, v1 = VObj n /\ objects_created di <= n /\
                    objects_created di2 = S n) as (n & -> & Hle & Hcount).
  { destruct (is_resource provider).
    - unfold create_resource, _get_provider_arguments in Hcreate.
      apply bind_inv in Hcreate
        as [([args kwargs] & di1 & Hargs & Henter)|(e & _ & [=])].
      assert (Hg : grows di di1).
      { eapply keeps_run; [|exact Hargs].
        apply keeps_provider_arguments;
          [apply grows_refl|apply grows_trans|apply grows_get_instance]. }
      destruct (enter_context_makes_new _ _ _ _ _ _ _ Hnew Henter)
        as [-> Hcount].
      exists (objects_created di1). destruct Hg as [Ho _ _ _ _]. by split.
    - unfold create_instance, _get_provider_arguments in Hcreate.
      apply bind_inv in Hcreate as [([] & di0 & Hvalid & Hcreate)|(e & _ & [=])].
      apply readonly_eq in Hvalid as ->; [|readonly].
      destruct (is_coroutine provider); [discriminate|].
      apply bind_inv in Hcreate
        as [([args kwargs] & di1 & Hargs & Hcall)|(e & _ & [=])].
      assert (Hg : grows di di1).
      { eapply keeps_run; [|exact Hargs].
        apply keeps_provider_arguments;
          [apply grows_refl|apply grows_trans|apply grows_get_instance]. }
      destruct (call_makes_new _ _ _ _ _ _ Hnew Hcall) as [-> Hcount].
      exists (objects_created di1). destruct Hg as [Ho _ _ _ _]. by split. }
  revert H. unfold update_context, read_context. run_monad.
  destruct (context_at ref di2); simpl; [|discriminate].
  intros [= <- <-]. exists n. split; [done|]. destruct ref; simpl; lia.
Qed.

(** X9.  A request scope starts with an empty cache.  The first resolution
    of a request-scoped interface inside a new scope, when it returns, has
    called the provider and returns what that call produced: nothing comes
    from the cache of an earlier scope, whatever the container went through
    before.  For a provider whose callable makes a new object at each call,
    the object that is returned did not exist when the scope was entered. *)
Theorem request_scope_starts_empty fuel interface di provider v di' :
  _providers di !! interface = Some provider ->
  scope provider = "request" ->
  _override_instances di !! interface = None ->
  get_instance (S fuel) interface (entered di) = (Ok v, di') ->
  invoked (obj provider) v (entered di) di' /\
  (makes_new (obj provider) ->
   exists n, v = VObj n /\ objects_created di <= n < objects_created di').
Proof.
  intros Hprov Hscope Hover.
  destruct (entered_spec di) as (_ & Hvar & Hctx & Hp & Ho & _ & _).
  assert (Hcount : objects_created (entered di) = objects_created di)
    by reflexivity.
  revert Hvar Hctx Hp Ho Hcount. generalize (entered di).
  intros d Hvar Hctx Hp Ho Hcount.
  simpl. unfold get_instance_body, get_provider, _get_scoped_context,
    _get_request_context.
  run_monad. rewrite Ho, Hover, Hp, Hprov. simpl. rewrite Hscope. simpl.
  rewrite Hvar. simpl. intros Hget. split.
  - revert Hget.
    apply ScopedContext_get_miss_invoked with (new_context "request");
      [apply preserves_get_instance|done|done|by rewrite Hp].
  - intros Hnew. rewrite <- Hcount.
    apply (ScopedContext_get_miss_new fuel (Request (contexts_created di))
             interface d (new_context "request") provider); try done.
    by rewrite Hp.
Qed.

(** A scope in which [Service] was resolved is left, and a second one is
    entered: the resolution there returns a second object. *)
Lemma request_scope_starts_empty_witness :
  let di := after (request_context (get_instance 1 (IType "Service")))
                  di_request in
  result (request_context (get_instance 1 (IType "Service"))) di_request
    = Ok (VObj 0) /\
  get_instance 1 (IType "Service") (entered di)
    = (Ok (VObj 1), after (get_instance 1 (IType "Service")) (entered di)) /\
  invoked (plain "service" []) (VObj 1) (entered di)
    (after (get_instance 1 (IType "Service")) (entered di)) /\
  exists n, VObj 1 = VObj n /\
    objects_created di <= n
    < objects_created (after (get_instance 1 (IType "Service")) (entered di)).
Proof.
  intros di. split; [by vm_compute|]. split; [by vm_compute|].
  destruct (request_scope_starts_empty 0 (IType "Service") di
              {| obj := plain "service" []; scope := "request" |} (VObj 1)
              (after (get_instance 1 (IType "Service")) (entered di)))
    as [Hinvoked Hnew]; try (vm_compute; reflexivity).
  split; [exact Hinvoked|]. apply Hnew. by intros history args kwargs.
Defined.

(** A provider outside of every scoped context that makes new objects: a
    resolution that returns hands out an object that did not exist before. *)
Lemma transient_resolution_is_new fuel interface di provider v di' :
  _providers di !! interface = Some provider ->
  _override_instances di !! interface = None ->
  scope provider <> "singleton" -> scope provider <> "request" ->
  makes_new (obj provider) ->
  get_instance (S fuel) interface di = (Ok v, di') ->
  exists n, v = VObj n /\ objects_created di <= n < objects_created di'.
Proof.
  intros Hprov Hover Hs Hr Hnew. simpl.
  unfold get_instance_body, get_provider, _get_scoped_context. run_monad.
  rewrite Hover, Hprov. simpl.
  rewrite !bool_decide_false by done. simpl.
  unfold create_instance, _get_provider_arguments.
  intros H.
  apply bind_inv in H as [([] & di0 & Hvalid & H)|(e & _ & [=])].
  apply readonly_eq in Hvalid as ->; [|readonly].
  destruct (is_coroutine provider); [discriminate|].
  apply bind_inv in H as [([args kwargs] & di1 & Hargs & H)|(e & _ & [=])].
  assert (Hg : grows di di1).
  { eapply keeps_run; [|exact Hargs].
    apply keeps_provider_arguments;
      [apply grows_refl|apply grows_trans|apply grows_get_instance]. }
  destruct (call_makes_new _ _ _ _ _ _ Hnew H) as [-> Hcount].
  exists (objects_created di1). split; [done|].
  destruct Hg as [Ho _ _ _ _]. lia.
Qed.

(** X16.  Transient identity.  For a provider whose scope is owned by no
    context and whose callable makes a new object at each call, two
    resolutions in a row that both return hand out two different objects:
    nothing is reused and nothing is looked up in a cache. *)
Theorem transient_objects_differ fuel fuel' interface di provider v1 di1 v2 di2 :
  _providers di !! interface = Some provider ->
  _override_instances di !! interface = None ->
  scope provider <> "singleton" -> scope provider <> "request" ->
  makes_new (obj provider) ->
  get_instance (S fuel) interface di = (Ok v1, di1) ->
  get_instance (S fuel') interface di1 = (Ok v2, di2) ->
  v1 <> v2.
Proof.
  intros Hprov Hover Hs Hr Hnew H1 H2.
  pose proof (preserves_get_instance (S fuel) interface di) as Hres.
  unfold after in Hres. rewrite H1 in Hres. destruct Hres as [Hp _ Ho _].
  simpl in Hp, Ho.
  destruct (transient_resolution_is_new _ _ _ _ _ _ Hprov Hover Hs Hr Hnew H1)
    as (n1 & -> & Hn1).
  rewrite <- Hp in Hprov. rewrite <- Ho in Hover.
  destruct (transient_resolution_is_new _ _ _ _ _ _ Hprov Hover Hs Hr Hnew H2)
    as (n2 & -> & Hn2).
  intros [= ->]. lia.
Qed.

Lemma transient_objects_differ_witness : VObj 0 <> VObj 1.
Proof.
  apply (transient_objects_differ 0 0 (IType "Service") di_transient
           {| obj := plain "service" []; scope := "transient" |}
           (VObj 0) (after (get_instance 1 (IType "Service")) di_transient)
           (VObj 1)
           (after (get_instance 1 (IType "Service");;
                   get_instance 1 (IType "Service")) di_transient));
    try (vm_compute; reflexivity); discriminate.
Defined.

(** * Starting the singleton context *)

Lemma lists_registry_elem_of di items interface provider :
  lists_registry di items ->
  (interface, provider) ∈ items <-> _providers di !! interface = Some provider.
Proof.
  intros Hitems. unfold lists_registry in Hitems. rewrite Hitems.
  apply elem_of_map_to_list.
Qed.

Lemma resolving_calls name di di' :
  resolving di di' -> calls name (trace di) <= calls name (trace di').
Proof.
  intros [_ _ _ (evs & -> & _)]. rewrite calls_app. lia.
Qed.

Lemma start_loop_refuses fuel yielded di interface provider :
  (interface, provider) ∈ yielded ->
  is_async_resource provider = true ->
  result (start_loop fuel yielded) di <> Ok tt.
Proof.
  intros Hin Hasync. revert di.
  induction yielded as [|[i p] rest IH]; intros di; [by apply elem_of_nil in Hin|].
  simpl. unfold result.
  destruct (is_resource p) eqn:Hres.
  - apply elem_of_cons in Hin as [[= <- <-]|Hin].
    { unfold is_resource, is_async_resource in *.
      by destruct (kind (obj provider)). }
    rewrite bind_unfold.
    destruct (create_resource _ p Singleton di) as [[v|e] di1]; [|done].
    rewrite bind_unfold.
    destruct (set_singleton_instance i v di1) as [[[]|e] di2]; [|done].
    by apply IH.
  - destruct (is_async_resource p) eqn:Ha; [done|].
    apply elem_of_cons in Hin as [[= <- <-]|Hin]; [congruence|].
    by apply IH.
Qed.

(** X17.  [start] cannot start an async generator: when the registry holds
    a provider with the scope of the singleton context that is an async
    generator, [start] does not return, whatever the order of the registry
    and whatever else is registered. *)
Theorem start_refuses_async_generators fuel items di interface provider :
  lists_registry di items ->
  _providers di !! interface = Some provider ->
  scope provider = _scope (_singleton_context di) ->
  is_async_resource provider = true ->
  result (start fuel items) di <> Ok tt.
Proof.
  intros Hitems Hprov Hscope Hasync.
  unfold result, start, read_context. run_monad.
  apply (start_loop_refuses fuel _ di interface provider); [|done].
  unfold _iter_providers. apply list_elem_of_filter. split; [done|].
  by apply (lists_registry_elem_of di).
Qed.

Lemma start_refuses_async_generators_witness :
  result (start 1 items_async) di_async <> Ok tt.
Proof.
  apply (start_refuses_async_generators 1 items_async di_async
           (IType "Connection")
           {| obj := async_resource; scope := "singleton" |}).
  - unfold lists_registry. vm_compute. reflexivity.
  - vm_compute. reflexivity.
  - reflexivity.
  - reflexivity.
Defined.

Lemma preserves_set_singleton_instance interface instance :
  preserves (set_singleton_instance interface instance).
Proof. apply preserves_set_instances. Qed.

Lemma set_singleton_instance_spec interface instance di :
  set_singleton_instance interface instance di
  = (Ok tt,
     set_singleton_context
       (set_instances <[interface := instance]> (_singleton_context di)) di).
Proof. reflexivity. Qed.

(** What a run of the loop of [start] that returns has done. *)
Lemma start_loop_spec fuel yielded di di' :
  start_loop fuel yielded di = (Ok tt, di') ->
  resolving di di' /\
  (forall interface,
     is_Some (_instances (_singleton_context di) !! interface) ->
     is_Some (_instances (_singleton_context di') !! interface)) /\
  (forall interface provider,
     (interface, provider) ∈ yielded -> is_resource provider = true ->
     calls (qualname (obj provider)) (trace di')
       > calls (qualname (obj provider)) (trace di) /\
     is_Some (_instances (_singleton_context di') !! interface)).
Proof.
  revert di. induction yielded as [|[i p] rest IH]; intros di; simpl.
  - intros [= <-]. split; [done|]. split; [done|].
    intros interface provider Hin. by apply elem_of_nil in Hin.
  - destruct (is_resource p) eqn:Hres.
    + intros H.
      apply bind_inv in H as [(v & di1 & Hcreate & H)|(e & _ & [=])].
      rewrite bind_unfold, set_singleton_instance_spec in H.
      set (di2 := set_singleton_context _ di1) in H.
      destruct (IH _ H) as (Hres2 & Hstay2 & Hitems2).
      assert (Hres1 : resolving di di1).
      { eapply preserves_run; [|exact Hcreate].
        apply preserves_create_resource, preserves_get_instance. }
      assert (Hg1 : grows di di1).
      { eapply keeps_run; [|exact Hcreate].
        apply keeps_create_resource;
          [apply grows_refl|apply grows_trans|apply grows_log
          |apply grows_new_object|intros; by apply grows_update
          |apply grows_get_instance]. }
      assert (Hres12 : resolving di1 di2).
      { apply (preserves_set_singleton_instance i v di1). }
      assert (Hinv : invoked (obj p) v di di1).
      { eapply create_resource_invoked; [|exact Hcreate].
        apply preserves_get_instance. }
      split; [by etrans; [|etrans]|]. split.
      * intros interface Hsome. apply Hstay2.
        destruct (grows_entries _ _ Hg1 Singleton (_singleton_context di)
                    interface eq_refl Hsome) as (ctx1 & [= <-] & Hsome1).
        simpl. destruct (decide (interface = i)) as [->|Hne].
        -- by rewrite lookup_insert_eq.
        -- by rewrite lookup_insert_ne.
      * intros interface provider Hin Hr.
        apply elem_of_cons in Hin as [[= -> ->]|Hin].
        -- split.
           ++ destruct Hinv as (before & args & kwargs & later & Ht & _).
              pose proof (resolving_calls (qualname (obj p)) _ _ Hres2) as Hc.
              assert (Ht2 : trace di2 = trace di1) by done.
              rewrite Ht2, Ht, !calls_app, calls_EvCall in Hc. lia.
           ++ apply Hstay2. simpl. by rewrite lookup_insert_eq.
        -- destruct (Hitems2 _ _ Hin Hr) as [Hc Hsome]. split; [|done].
           pose proof (resolving_calls (qualname (obj provider)) _ _ Hres1).
           pose proof (resolving_calls (qualname (obj provider)) _ _ Hres12).
           lia.
    + destruct (is_async_resource p); [discriminate|].
      intros H. destruct (IH _ H) as (Hres2 & Hstay2 & Hitems2).
      split; [done|]. split; [done|].
      intros interface provider Hin Hr.
      apply elem_of_cons in Hin as [[= -> ->]|Hin]; [congruence|].
      by apply Hitems2.
Qed.

(** X18.  What [start] does when it returns.  Every generator provider of
    the registry with the scope of the singleton context has been called
    again, and the cache of the singleton context has an entry for its
    interface; the registry, the handle and the override map are as before.
    [start] does not look at the cache, so this holds for each call of
    [start]: a second [start] sets every such generator up a second time. *)
Theorem start_sets_up_generators fuel items di di' interface provider :
  lists_registry di items ->
  start fuel items di = (Ok tt, di') ->
  _providers di !! interface = Some provider ->
  started_by di provider ->
  calls (qualname (obj provider)) (trace di')
    > calls (qualname (obj provider)) (trace di) /\
  is_Some (_instances (_singleton_context di') !! interface) /\
  _providers di' = _providers di /\
  _request_context_var di' = _request_context_var di /\
  _override_instances di' = _override_instances di.
Proof.
  intros Hitems Hstart Hprov [Hscope Hres].
  revert Hstart. unfold start, read_context. run_monad. intros Hstart.
  destruct (start_loop_spec _ _ _ _ Hstart) as ([Hp Hv Ho _] & _ & Hall).
  destruct (Hall interface provider) as [Hc Hsome]; [|done|done].
  unfold _iter_providers. apply list_elem_of_filter. split; [done|].
  by apply (lists_registry_elem_of di).
Qed.

Lemma start_sets_up_generators_witness :
  calls "A" (trace (after (start 1 items_A_B;; start 1 items_A_B) di_A_B))
    > calls "A" (trace (after (start 1 items_A_B) di_A_B)) /\
  is_Some (_instances (_singleton_context
                         (after (start 1 items_A_B;; start 1 items_A_B) di_A_B))
           !! IType "A") /\
  _providers (after (start 1 items_A_B;; start 1 items_A_B) di_A_B)
    = _providers (after (start 1 items_A_B) di_A_B) /\
  _request_context_var (after (start 1 items_A_B;; start 1 items_A_B) di_A_B)
    = _request_context_var (after (start 1 items_A_B) di_A_B) /\
  _override_instances (after (start 1 items_A_B;; start 1 items_A_B) di_A_B)
    = _override_instances (after (start 1 items_A_B) di_A_B).
Proof.
  apply (start_sets_up_generators 1 items_A_B
           (after (start 1 items_A_B) di_A_B)
           (after (start 1 items_A_B;; start 1 items_A_B) di_A_B)
           (IType "A") {| obj := resource "A" []; scope := "singleton" |}).
  - unfold lists_registry. vm_compute.
    first [reflexivity | apply perm_swap].
  - vm_compute. reflexivity.
  - vm_compute. reflexivity.
  - split; reflexivity.
Defined.

Lemma start_loop_lazy fuel yielded di :
  Forall (fun item => is_resource item.2 = false /\
                      is_async_resource item.2 = false) yielded ->
  start_loop fuel yielded di = (Ok tt, di) /\
  astart_loop fuel yielded di = (Ok tt, di).
Proof.
  induction 1 as [|[i p] rest [Hr Ha] _ IH]; simpl; [done|].
  simpl in Hr, Ha. by rewrite Hr, Ha.
Qed.

(** X19.  Functions, coroutine functions and classes stay lazy.  When no
    provider with the scope of the singleton context is a generator or an
    async generator, [start] and [astart] return without calling any provider
    and without changing the container. *)
Theorem start_leaves_plain_providers_lazy fuel items di :
  lists_registry di items ->
  (forall interface provider,
     _providers di !! interface = Some provider ->
     scope provider = _scope (_singleton_context di) ->
     is_resource provider = false /\ is_async_resource provider = false) ->
  start fuel items di = (Ok tt, di) /\ astart fuel items di = (Ok tt, di).
Proof.
  intros Hitems Hplain. unfold start, astart, read_context. run_monad.
  apply start_loop_lazy. apply Forall_forall. intros [i p] Hin.
  unfold _iter_providers in Hin. apply list_elem_of_filter in Hin as [Hscope Hin].
  apply (Hplain i p); [|done]. by apply (lists_registry_elem_of di items).
Qed.

Lemma start_leaves_plain_providers_lazy_witness :
  start 1 items_str di_str = (Ok tt, di_str) /\
  astart 1 items_str di_str = (Ok tt, di_str).
Proof.
  apply (start_leaves_plain_providers_lazy 1 items_str di_str).
  - unfold lists_registry. vm_compute. reflexivity.
  - intros interface provider Hprov _.
    assert (Hin : (interface, provider) ∈ items_str).
    { apply (lists_registry_elem_of di_str); [|done].
      unfold lists_registry. vm_compute. reflexivity. }
    apply list_elem_of_singleton in Hin. inversion Hin. split; reflexivity.
Defined.

(** * Arguments of provider callables and of injected callables *)

Lemma provider_arguments_settled resolve instance_of params args kwargs di :
  Forall (settled resolve instance_of di) params ->
  provider_arguments resolve params args kwargs di
  = (Ok (args ++ positional_arguments instance_of params,
         keyword_arguments instance_of params kwargs), di).
Proof.
  unfold positional_arguments, keyword_arguments.
  intros Hall. revert args kwargs.
  induction Hall as [|q params Hq _ IH]; intros args kwargs.
  - simpl. run_monad. by rewrite app_nil_r.
  - unfold settled in Hq. simpl. run_monad. rewrite Hq.
    destruct (positional_only q) eqn:Hkind.
    + rewrite IH. rewrite filter_cons_True by done.
      rewrite (filter_cons_False (fun q => positional_only q = false))
        by (rewrite Hkind; done).
      simpl. by rewrite <- app_assoc.
    + rewrite IH. rewrite filter_cons_False by (rewrite Hkind; done).
      rewrite (filter_cons_True (fun q => positional_only q = false)) by done.
      done.
Qed.

(** X20.  How a provider callable gets its arguments.  For a provider that
    no context owns, is neither a generator nor a coroutine function, and
    whose dependencies are all settled (overridden, or cached): a resolution
    is one call of the callable, with the instances of the positional-only
    parameters as positional arguments in the order of the signature and the
    instances of all other parameters as keyword arguments under the names
    of the parameters. *)
Theorem arguments_follow_parameter_kinds fuel interface di provider instance_of :
  _providers di !! interface = Some provider ->
  _override_instances di !! interface = None ->
  scope provider <> "singleton" -> scope provider <> "request" ->
  is_resource provider = false -> is_async_resource provider = false ->
  is_coroutine provider = false ->
  Forall (settled (get_instance fuel) instance_of di) (parameters provider) ->
  get_instance (S fuel) interface di
  = call (obj provider)
         (positional_arguments instance_of (parameters provider))
         (keyword_arguments instance_of (parameters provider) ∅) di.
Proof.
  intros Hprov Hover Hs Hr Hres Hares Hco Hall. simpl.
  unfold get_instance_body, get_provider, _get_scoped_context. run_monad.
  rewrite Hover, Hprov. simpl.
  rewrite !bool_decide_false by done. simpl.
  unfold create_instance, _validate_instance_is_not_resource,
    _get_provider_arguments.
  rewrite Hres, Hares, Hco. run_monad.
  rewrite (provider_arguments_settled _ instance_of) by done. simpl.
  by destruct (call _ _ _ di) as [[] ?].
Qed.

Lemma arguments_follow_parameter_kinds_witness :
  get_instance 2 (IType "Service") di_a_b_c
  = call service_a_b_c [VObj 10]
         (<["c" := VObj 12]> (<["b" := VObj 11]> ∅)) di_a_b_c.
Proof.
  apply (arguments_follow_parameter_kinds 1 (IType "Service") di_a_b_c
           {| obj := service_a_b_c; scope := "transient" |} instance_of_a_b_c);
    try (vm_compute; reflexivity); try discriminate.
  repeat constructor; vm_compute; reflexivity.
Defined.

Lemma _get_injected_params_spec di params injected_params :
  _get_injected_params di params = inr injected_params <->
  Forall (injectable di) (marked_params params) /\
  injected_params = (fun q => (name q, annotation q)) <$> marked_params params.
Proof.
  unfold marked_params. revert injected_params.
  induction params as [|q params IH]; intros injected_params; simpl.
  - split.
    + intros [= <-]. split; [constructor|done].
    + by intros [_ ->].
  - rewrite filter_cons. destruct (marked q) eqn:Hmark.
    + rewrite decide_True by done. rewrite fmap_cons, Forall_cons. simpl.
      unfold _validate_injected_parameter, injectable at 1.
      destruct (decide (annotation (param q) = IEmpty)) as [Hempty|Hempty].
      { rewrite bool_decide_true by done. split; [done|].
        by intros [[[] _] _]. }
      rewrite bool_decide_false by done.
      destruct (decide (is_Some (_providers di !! annotation (param q))))
        as [Hbound|Hbound].
      2:{ rewrite bool_decide_false by done. split; [done|].
          by intros [[[] _] _]. }
      rewrite bool_decide_true by done.
      destruct (_get_injected_params di params) as [e|l].
      * split; [done|]. intros [[_ Hall] _].
        pose proof (proj2 (IH _) (conj Hall eq_refl)) as Habs. done.
      * destruct (proj1 (IH l) eq_refl) as [Hall ->]. split.
        -- by intros [= <-].
        -- by intros [_ ->].
    + rewrite decide_False by done. apply IH.
Qed.

(** X21.  [inject] checks the callable once, when it is decorated, and looks
    only at the parameters whose default is the dependency mark: it returns
    the wrapper exactly when each of them is annotated with an interface
    that has a provider at that moment, and raises otherwise.  A parameter
    without the mark is never checked, whatever its annotation. *)
Theorem inject_checks_marked_params di params o :
  (exists f, inject di params o = inr f) <->
  Forall (injectable di) (marked_params params).
Proof.
  unfold inject. split.
  - intros [f Hf].
    destruct (_get_injected_params di params) as [e|l] eqn:Hl; [done|].
    by apply _get_injected_params_spec in Hl as [Hall _].
  - intros Hall.
    rewrite (proj2 (_get_injected_params_spec di params _) (conj Hall eq_refl)).
    by eexists.
Qed.

Lemma injected_kwargs_agree resolve injected_params kwargs1 kwargs2 di :
  (forall k, k ∉ injected_params.*1 -> kwargs1 !! k = kwargs2 !! k) ->
  injected_kwargs resolve injected_params kwargs1 di
  = injected_kwargs resolve injected_params kwargs2 di.
Proof.
  revert kwargs1 kwargs2 di.
  induction injected_params as [|[n a] rest IH]; intros kwargs1 kwargs2 di Hagree.
  - simpl. run_monad. f_equal. f_equal. apply map_eq. intros k.
    apply Hagree. simpl. apply not_elem_of_nil.
  - simpl. run_monad. destruct (resolve a di) as [[v|e] di1]; [|done].
    apply IH. intros k Hk.
    destruct (decide (k = n)) as [->|Hne].
    + by rewrite !lookup_insert_eq.
    + rewrite !lookup_insert_ne by done. apply Hagree. simpl.
      rewrite elem_of_cons. by intros [?|?].
Qed.

(** X22.  What the caller passes for an injected parameter is thrown away.
    For a callable decorated by [inject] and a parameter that has the mark:
    a call of the wrapper with a keyword argument of that name does the same
    and returns the same as the call without it, for a function and for a
    coroutine function. *)
Theorem inject_discards_caller_value di0 params o f q x fuel args kwargs di :
  inject di0 params o = inr f ->
  q ∈ marked_params params ->
  f fuel args (<[name q := x]> kwargs) di = f fuel args kwargs di.
Proof.
  unfold inject. intros Hf Hq.
  destruct (_get_injected_params di0 params) as [e|l] eqn:Hl; [done|].
  apply _get_injected_params_spec in Hl as [_ ->].
  injection Hf as <-.
  assert (Hagree : forall k,
    k ∉ ((fun q => (name q, annotation q)) <$> marked_params params).*1 ->
    <[name q := x]> kwargs !! k = kwargs !! k).
  { intros k Hk. apply lookup_insert_ne. intros <-. apply Hk.
    rewrite <- list_fmap_compose. apply list_elem_of_fmap. by exists q. }
  destruct (kind o); unfold wrapped, awrapped; run_monad;
    by rewrite (injected_kwargs_agree _ _ _ _ _ Hagree).
Qed.

Lemma inject_discards_caller_value_witness :
  wrapped 2 [("service", IType "str")] handler []
          (<["service" := VObj 7]> ∅) di_str
  = wrapped 2 [("service", IType "str")] handler [] ∅ di_str.
Proof.
  apply (inject_discards_caller_value di_str handler_params handler
           (fun fuel => wrapped fuel [("service", IType "str")] handler)
           (keyword "service" (IType "str")) (VObj 7) 2 [] ∅ di_str).
  - reflexivity.
  - vm_compute. apply list_elem_of_singleton. reflexivity.
Defined.

Lemma injected_kwargs_settled resolve instance_of params kwargs di :
  Forall (settled resolve instance_of di) params ->
  injected_kwargs resolve ((fun q => (name q, annotation q)) <$> params) kwargs di
  = (Ok (set_arguments instance_of params kwargs), di).
Proof.
  unfold set_arguments. intros Hall. revert kwargs.
  induction Hall as [|q params Hq _ IH]; intros kwargs.
  - simpl. by run_monad.
  - unfold settled in Hq. simpl. run_monad. rewrite Hq. apply IH.
Qed.

(** X23.  What the decorated function receives.  For a function (not a
    coroutine function) decorated by [inject] whose marked parameters are
    all settled: a call of the wrapper is one call of the function, with the
    positional arguments of the caller as they are and with the keyword
    arguments of the caller where the instance of each marked parameter has
    been put under the name of the parameter. *)
Theorem inject_passes_instances di0 params o f instance_of fuel args kwargs di :
  inject di0 params o = inr f ->
  kind o <> Coroutine ->
  Forall (settled (get_instance fuel) instance_of di) (marked_params params) ->
  f fuel args kwargs di
  = call o args (set_arguments instance_of (marked_params params) kwargs) di.
Proof.
  unfold inject. intros Hf Hkind Hall.
  destruct (_get_injected_params di0 params) as [e|l] eqn:Hl; [done|].
  apply _get_injected_params_spec in Hl as [_ ->].
  injection Hf as <-.
  assert (wrapped fuel ((fun q => (name q, annotation q)) <$> marked_params params)
            o args kwargs di
          = call o args (set_arguments instance_of (marked_params params) kwargs) di)
    as Hw.
  { unfold wrapped. run_monad.
    rewrite (injected_kwargs_settled _ instance_of) by done. simpl.
    by destruct (call _ _ _ di) as [[] ?]. }
  by destruct (kind o).
Qed.

Lemma inject_passes_instances_witness :
  wrapped 2 [("service", IType "str")] handler []
          (<["name" := VObj 5]> ∅) di_resolved
  = call handler []
         (<["service" := VObj 0]> (<["name" := VObj 5]> ∅)) di_resolved.
Proof.
  apply (inject_passes_instances di_str handler_params handler
           (fun fuel => wrapped fuel [("service", IType "str")] handler)
           (fun _ => VObj 0) 2 [] (<["name" := VObj 5]> ∅) di_resolved).
  - reflexivity.
  - discriminate.
  - constructor; [vm_compute; reflexivity|constructor].
Defined.
